(** * quics: the [qis] command line and the sync persistence adapter

    A shallow embedding of the command-line front end of the quics server
    (package [main]: the cobra command tree, its package-level flag
    variables and the [RunE] body of every command) and of package [sync]
    ([Repository], [RepositoryInterface]).

    The commands talk to the outside world through a REST client, the file
    system, the logger and standard output.  Those collaborators are not part
    of the program text; they are gathered in a record [Env] of oracles, and
    every call the program makes to them is recorded, in program order, as an
    [Event] of the run's trace. *)

From Stdlib Require Import String Ascii ZArith NArith Decimal DecimalString DecimalN.
From stdpp Require Import base option list strings gmap.

(** Go's [[]byte]. *)
Abbreviation bytes := (list Byte.byte).

(** * Package main *)
Module main.

(** ** Constants (command and option names) *)

Definition RootCommand : string := "qis".
Definition StartCommand : string := "start".
Definition StopCommand : string := "stop".
Definition ListenCommand : string := "listen".
Definition RunCommand : string := "run".
Definition PasswordCommand : string := "password".
Definition ShowCommand : string := "show".
Definition RemoveCommand : string := "remove".
Definition DownloadCommand : string := "download".
Definition SetCommand : string := "set".
Definition ResetCommand : string := "reset".
Definition ClientCommand : string := "client".
Definition DirCommand : string := "dir".
Definition FileCommand : string := "file".
Definition HistoryCommand : string := "history".

Definition AllOption : string := "all".
Definition AllShortOption : string := "a".
Definition IDOption : string := "id".
Definition IDShortCommand : string := "i".
Definition PathOption : string := "path".
Definition PathShortCommand : string := "p".
Definition VersionOption : string := "version".
Definition VersionShortCommand : string := "v".
Definition TargetOption : string := "target".
Definition TargetShortCommand : string := "t".
Definition AddrOption : string := "addr".
Definition PortOption : string := "port".
Definition Port3Option : string := "port3".
Definition PasswordOption : string := "pw".

(** ** Package-level flag variables

    [var ( all bool = false; id string = ""; ... )]: one shared set of
    variables that every command reads. *)

Record Globals := {
  all : bool;
  id : string;
  path : string;
  version : N;          (* uint64 *)
  target : string;
  addr : string;
  port : string;
  port3 : string;
  password : string
}.

(** The initial values of the [var] block. *)
Definition initial : Globals :=
  {| all := false; id := ""; path := ""; version := 0; target := "";
     addr := ""; port := ""; port3 := ""; password := "" |}.

(** The command variables [rootCmd], [startServerCmd], ... *)
Inductive Command :=
  | rootCmd | startServerCmd | stopServerCmd | listenCmd | runCmd
  | passwordCmd | passwordSetCmd | passwordResetCmd
  | showCmd | showClientCmd | showDirCmd | showFileCmd | showHistoryCmd
  | removeCmd | removeClientCmd | removeDirCmd | removeFileCmd
  | downloadCmd | downloadFileCmd.

#[global] Instance Command_eq_dec : EqDecision Command.
Proof. solve_decision. Defined.

(** ** Errors, collaborator types and events *)

(** Go [error] values: [io.ErrShortWrite], and whatever a collaborator
    returns, identified by its message. *)
Inductive error :=
  | io_ErrShortWrite
  | Err (msg : string).

#[global] Instance error_eq_dec : EqDecision error.
Proof. solve_decision. Defined.

(** [err.Error()] *)
Definition Error (e : error) : string :=
  match e with
  | io_ErrShortWrite => "short write"
  | Err msg => msg
  end.

(** The records of package [types] are declared outside these sources;
    each is given the fields the commands read or set. *)

(** Modelled from the spec: the server record, of which [password set]
    fills the access password, the only field it sets. *)
Record Server := { Password : string }.

(** Modelled from the spec: a Client has a unique identifier (UUID), a
    locally-assigned numeric ordinal, a network address and the root-directory
    keys it belongs to. *)
Record Client := {
  UUID : string;
  Id : Z;
  Ip : string;
  Root : list string
}.

(** Modelled from the spec: a RootDirectory has a canonical path key, an
    owner, an access password and the UUIDs of its member clients. *)
Record RootDirectory := {
  dir_AfterPath : string;
  Owner : string;
  dir_Password : string;
  UUIDs : list string
}.

(** Modelled from the spec: a File has a path key, its owning
    root-directory key, the latest content hash and sync timestamp, an
    existence flag and a metadata snapshot (of which the modification time is
    printed). *)
Record File := {
  file_AfterPath : string;
  RootDirKey : string;
  LatestHash : string;
  LatestSyncTimestamp : N;
  ContentsExisted : bool;
  Metadata_ModTime : string
}.

(** Modelled from the spec: a FileHistory has a path-before, a path-after,
    a date, the committing client UUID, the version timestamp and the content
    hash. *)
Record FileHistory := {
  BeforePath : string;
  AfterPath : string;
  Date : string;
  hist_UUID : string;
  Timestamp : N;
  Hash : string
}.

(** Every observable action of a command, in the order the code performs
    them. *)
Inductive Event :=
  | ELog (operands : list string)                       (* log.Println(...) *)
  | EHelp (c : Command)                                 (* c.Help() *)
  | ENewRestClient                                      (* NewRestClient() *)
  | EGet (url : string)                                 (* restClient.GetRequest(url) *)
  | EPost (url contentType : string) (body : option bytes)
                                                        (* restClient.PostRequest(...) *)
  | EClose                                              (* restClient.Close() *)
  | EMarshal (s : Server)                               (* json.Marshal(server) *)
  | EUnmarshal (data : bytes)                           (* utils.UnmarshalRequestBody *)
  | EPrint (line : string)                              (* fmt.Printf(...) *)
  | ECreate (name : string)                             (* os.Create(name) *)
  | EWrite (name : string) (data : bytes)               (* file.Write(data) *)
  | EFileClose (name : string)                          (* deferred file.Close() *)
  | EAppNew (a p p3 : string)                           (* app.New(addr, port, port3) *)
  | EStartRestServer                                    (* quicsApp.StartRestServer() *)
  | EAppRun.                                            (* quicsApp.Run() *)

(** The dynamic type of the slice handed to [utils.UnmarshalRequestBody]
    through its [any] parameter. *)
Inductive Elem := ElemClient | ElemRootDirectory | ElemFile | ElemFileHistory.

Definition elem (k : Elem) : Type :=
  match k with
  | ElemClient => Client
  | ElemRootDirectory => RootDirectory
  | ElemFile => File
  | ElemFileHistory => FileHistory
  end.

(** The collaborators, as oracles: what each call answers. *)
Record Env := {
  GetRequest : string → bytes + error;
  PostRequest : string → string → option bytes → bytes + error;
  Close : option error;
  json_Marshal : Server → bytes + error;
  (** What [utils.UnmarshalRequestBody(data, dst)] stores into the elements
      of the slice it is handed: [Some x] at the indices it overwrites. *)
  UnmarshalRequestBody : ∀ k : Elem, bytes → list (elem k) → nat → option (elem k);
  os_Create : string → option error;
  file_Write : string → bytes → Z * option error;
  app_New : string → string → string → option error;
  StartRestServer : option error;
  app_Run : option error
}.

(** ** Formatting *)

(** [fmt.Sprint] and [%d] on an unsigned integer: its decimal digits. *)
Definition Sprint (n : N) : string := NilEmpty.string_of_uint (N.to_uint n).

(** [%d] on a signed integer. *)
Definition Sprint_int (z : Z) : string := NilEmpty.string_of_int (Z.to_int z).

(** [%t] *)
Definition Sprint_bool (b : bool) : string := if b then "true" else "false".

Definition newline : string := String (ascii_of_nat 10) EmptyString.

(** ** Command bodies: a trace-writing monad with early return

    A computation either continues with a value ([inl]) or has executed a
    [return] of the enclosing [RunE] ([inr]); it carries the events emitted so
    far. *)

Definition Act (A : Type) : Type := list Event * (A + option error).

#[global] Instance Act_ret : MRet Act := λ A a, ([], inl a).

#[global] Instance Act_bind : MBind Act := λ A B f m,
  match m with
  | (t, inl a) => let '(t', r) := f a in (t ++ t', r)
  | (t, inr e) => (t, inr e)
  end.

Definition emit (e : Event) : Act unit := ([e], inl tt).

(** [return e] *)
Definition return_ {A} (e : option error) : Act A := ([], inr e).

(** A [RunE] body always ends in a [return]. *)
Definition runE (a : Act Empty_set) : list Event * option error :=
  match a with
  | (t, inl x) => match x with end
  | (t, inr e) => (t, e)
  end.

(** [if err != nil { log.Println("quics err: ", err); return err }] *)
Definition orLogReturn {A} (r : A + error) : Act A :=
  match r with
  | inl a => mret a
  | inr err => emit (ELog ["quics err: "; Error err]) ;; return_ (Some err)
  end.

(** [if err != nil { return err }] *)
Definition orReturn {A} (r : A + error) : Act A :=
  match r with
  | inl a => mret a
  | inr err => return_ (Some err)
  end.

Definition errOf (o : option error) : unit + error :=
  match o with None => inl tt | Some e => inr e end.

(** A slice passed by value shares its backing array with the callee but
    not its header: the callee can overwrite elements in place, it cannot
    change the length the caller sees. *)
Definition slice_after_call {A} (written : nat → option A) (s : list A) : list A :=
  imap (λ i x, default x (written i)) s.

(** [range] loop emitting one action per element. *)
Fixpoint for_each {A} (l : list A) (body : A → Act unit) : Act unit :=
  match l with
  | [] => mret tt
  | x :: l' => body x ;; for_each l' body
  end.

(** ** The commands

    Each [initXCmd] of the source builds a [cobra.Command] whose [RunE]
    closure reads the package-level variables: here the closure takes the
    collaborators and the current values of those variables. *)

Record cobra_Command := {
  Use : string;
  Short : string;
  RunE : option (Env → Globals → Act Empty_set)
}.

(** [validateOptionByCommand]: logs and prints the help text when neither
    option is set; its [return] leaves only the helper itself. *)
Definition validateOptionByCommand (g : Globals) (command : Command) : Act unit :=
  if negb (all g) && bool_decide (id g = "") then
    emit (ELog ["quics: "; "Please enter only one option"]) ;;
    emit (EHelp command) ;;
    mret tt
  else mret tt.

(** [restClient.PostRequest(url, "application/json", body)] followed by
    [restClient.Close()], each with its error check: the tail shared by every
    command that posts. *)
Definition postAndClose (env : Env) (url : string) (body : option bytes) : Act Empty_set :=
  emit ENewRestClient ;;
  emit (EPost url "application/json" body) ;;
  _ ← orLogReturn (PostRequest env url "application/json" body) ;
  emit EClose ;;
  _ ← orLogReturn (errOf (Close env)) ;
  return_ None.

(** [restClient.GetRequest(url)] followed by [restClient.Close()], each with
    its error check; yields [response.Bytes()]. *)
Definition getAndClose (env : Env) (url : string) : Act bytes :=
  emit ENewRestClient ;;
  emit (EGet url) ;;
  response ← orLogReturn (GetRequest env url) ;
  emit EClose ;;
  _ ← orLogReturn (errOf (Close env)) ;
  mret response.

(** [x := []T{}; utils.UnmarshalRequestBody(data, x)]: the value of [x]
    after the call. *)
Definition unmarshalInto (env : Env) (k : Elem) (data : bytes) (x : list (elem k))
    : Act (list (elem k)) :=
  emit (EUnmarshal data) ;;
  mret (slice_after_call (UnmarshalRequestBody env k data x) x).

Definition initStartServerCmd : cobra_Command :=
  {| Use := StartCommand;
     Short := "start quic-s server";
     RunE := Some (λ env g,
       emit (EAppNew (addr g) (port g) (port3 g)) ;;
       _ ← orReturn (errOf (app_New env (addr g) (port g) (port3 g))) ;
       emit EStartRestServer ;;
       _ ← orReturn (errOf (StartRestServer env)) ;
       return_ None) |}.

Definition initStopServerCmd : cobra_Command :=
  {| Use := StopCommand;
     Short := "stop quic-s server";
     RunE := Some (λ env g,
       let url := "/api/v1/server/stop" in
       postAndClose env url None) |}.

Definition initListenCmd : cobra_Command :=
  {| Use := ListenCommand;
     Short := "listen quic-s protocol";
     RunE := Some (λ env g,
       let url := "/api/v1/server/listen" in
       postAndClose env url None) |}.

Definition initRunCmd : cobra_Command :=
  {| Use := RunCommand;
     Short := "run quic-s server";
     RunE := Some (λ env g,
       emit (EAppNew (addr g) (port g) (port3 g)) ;;
       _ ← orReturn (errOf (app_New env (addr g) (port g) (port3 g))) ;
       emit EAppRun ;;
       _ ← orReturn (errOf (app_Run env)) ;
       return_ None) |}.

Definition initPasswordCmd : cobra_Command :=
  {| Use := PasswordCommand;
     Short := "change password for quic-s server";
     RunE := None |}.

Definition initPasswordSetCmd : cobra_Command :=
  {| Use := SetCommand;
     Short := "change password for quic-s server";
     RunE := Some (λ env g,
       if bool_decide (password g = "") then
         emit (ELog ["quics: "; "Please enter password"]) ;;
         emit (EHelp passwordSetCmd) ;;
         return_ None
       else
         let url := "/api/v1/server/password/set" in
         let server := {| Password := password g |} in
         emit (EMarshal server) ;;
         body ← orLogReturn (json_Marshal env server) ;
         postAndClose env url (Some body)) |}.

Definition initPasswordResetCmd : cobra_Command :=
  {| Use := ResetCommand;
     Short := "reset password for quic-s server";
     RunE := Some (λ env g,
       let url := "/api/v1/server/password/reset" in
       postAndClose env url None) |}.

Definition initShowCmd : cobra_Command :=
  {| Use := ShowCommand;
     Short := "show quic-s server data";
     RunE := None |}.

Definition initShowClientCmd : cobra_Command :=
  {| Use := ClientCommand;
     Short := "show client information";
     RunE := Some (λ env g,
       validateOptionByCommand g showClientCmd ;;
       let url := "/api/v1/server/logs/clients?uuid=" +:+ id g in
       response ← getAndClose env url ;
       clients ← unmarshalInto env ElemClient response [] ;
       for_each clients (λ client,
         for_each (Root client) (λ root,
           emit (EPrint ("*   UUID: " +:+ UUID client +:+ "   |   ID: " +:+ Sprint_int (Id client)
                         +:+ "   |   IP: " +:+ Ip client +:+ "   |   Root Directoreis: " +:+ root
                         +:+ "   *" +:+ newline)))) ;;
       return_ None) |}.

Definition initShowDirCmd : cobra_Command :=
  {| Use := DirCommand;
     Short := "show directory information";
     RunE := Some (λ env g,
       validateOptionByCommand g showDirCmd ;;
       let url := "/api/v1/server/logs/directories?afterPath=" +:+ path g in
       response ← getAndClose env url ;
       dirs ← unmarshalInto env ElemRootDirectory response [] ;
       for_each dirs (λ dir,
         for_each (UUIDs dir) (λ uuid,
           emit (EPrint ("*   Root Directory: " +:+ dir_AfterPath dir +:+ "   |   Owner: " +:+ Owner dir
                         +:+ "   |   Password: " +:+ dir_Password dir +:+ "   |   UUID: " +:+ uuid
                         +:+ "   *" +:+ newline)))) ;;
       return_ None) |}.

Definition initShowFileCmd : cobra_Command :=
  {| Use := FileCommand;
     Short := "show file information";
     RunE := Some (λ env g,
       validateOptionByCommand g showFileCmd ;;
       let url := "/api/v1/server/logs/files?afterPath=" +:+ path g in
       response ← getAndClose env url ;
       files ← unmarshalInto env ElemFile response [] ;
       for_each files (λ file,
         emit (EPrint ("*   File: " +:+ file_AfterPath file +:+ "   |   Root Directory: " +:+ RootDirKey file
                       +:+ "   |   LatestHash: " +:+ LatestHash file
                       +:+ "   |   LatestSyncTimestamp: " +:+ Sprint (LatestSyncTimestamp file)
                       +:+ "   |   ContentsExisted: " +:+ Sprint_bool (ContentsExisted file)
                       +:+ "   |   Metadata: " +:+ Metadata_ModTime file +:+ "   *" +:+ newline))) ;;
       return_ None) |}.

Definition initShowHistoryCmd : cobra_Command :=
  {| Use := HistoryCommand;
     Short := "show history information";
     RunE := Some (λ env g,
       validateOptionByCommand g showHistoryCmd ;;
       let url := "/api/v1/server/logs/histories?afterPath=" +:+ path g in
       response ← getAndClose env url ;
       histories ← unmarshalInto env ElemFileHistory response [] ;
       for_each histories (λ history,
         emit (EPrint ("*   Path: " +:+ (BeforePath history +:+ AfterPath history)
                       +:+ "   |   Date: " +:+ Date history +:+ "   |   UUID: " +:+ hist_UUID history
                       +:+ "   |   Timestamp: " +:+ Sprint (Timestamp history)
                       +:+ "   |   Hash: " +:+ Hash history +:+ "   |*" +:+ newline))) ;;
       return_ None) |}.

Definition initRemoveCmd : cobra_Command :=
  {| Use := RemoveCommand;
     Short := "initialize quic-s server";
     RunE := None |}.

Definition initRemoveClientCmd : cobra_Command :=
  {| Use := ClientCommand;
     Short := "remove client";
     RunE := Some (λ env g,
       validateOptionByCommand g removeClientCmd ;;
       let url := "/api/v1/server/remove/clients?uuid=" +:+ id g in
       postAndClose env url None) |}.

Definition initRemoveDirCmd : cobra_Command :=
  {| Use := DirCommand;
     Short := "initialize directory";
     RunE := Some (λ env g,
       validateOptionByCommand g removeDirCmd ;;
       let url := "/api/v1/server/remove/directories?afterPath=" +:+ path g in
       postAndClose env url None) |}.

Definition initRemoveFileCmd : cobra_Command :=
  {| Use := FileCommand;
     Short := "initialize file";
     RunE := Some (λ env g,
       validateOptionByCommand g removeFileCmd ;;
       let url := "/api/v1/server/remove/files?afterPath=" +:+ path g in
       postAndClose env url None) |}.

Definition initDownloadCmd : cobra_Command :=
  {| Use := DownloadCommand;
     Short := "download certain file";
     RunE := None |}.

(** The URL of the download request. *)
Definition downloadURL (p : string) (v : N) : string :=
  "/api/v1/server/download/files?afterPath=" +:+ p +:+ "&timestamp=" +:+ Sprint v.

Definition initDownloadFileCmd : cobra_Command :=
  {| Use := FileCommand;
     Short := "download certain file";
     RunE := Some (λ env g,
       if bool_decide (path g = "") || (version g =? 0)%N || bool_decide (target g = "") then
         emit (ELog ["quics: "; "Please enter both path and version"]) ;;
         emit (EHelp downloadFileCmd) ;;
         return_ None
       else
         let url := "/api/v1/server/download/files?afterPath=" +:+ path g
                    +:+ "&timestamp=" +:+ Sprint (version g) in
         response ← getAndClose env url ;
         emit (ECreate (target g)) ;;
         _ ← orReturn (errOf (os_Create env (target g))) ;
         (* defer destinationFile.Close(): runs at every return below *)
         emit (EWrite (target g) response) ;;
         let '(n, err) := file_Write env (target g) response in
         match err with
         | Some e => emit (EFileClose (target g)) ;; return_ (Some e)
         | None =>
             if bool_decide (n ≠ Z.of_nat (length response)) then
               emit (EFileClose (target g)) ;; return_ (Some io_ErrShortWrite)
             else
               emit (EFileClose (target g)) ;; return_ None
         end) |}.

(** ** [Run]: the command tree, the flag bindings and [Execute]

    cobra itself is a library; what [Run] tells it is modelled here:
    which [cobra.Command] each command variable holds, which flags each
    command registers and to which package-level variable each is bound
    ([Flags().StringVarP(&id, ...)]), and the [AddCommand] tree.  cobra's
    built-in [--help] flag and generated commands are left out. *)

Definition command (c : Command) : cobra_Command :=
  match c with
  | rootCmd => {| Use := RootCommand;
                  Short := "qis is a CLI for interacting with the quics server";
                  RunE := None |}
  | startServerCmd => initStartServerCmd
  | stopServerCmd => initStopServerCmd
  | listenCmd => initListenCmd
  | runCmd => initRunCmd
  | passwordCmd => initPasswordCmd
  | passwordSetCmd => initPasswordSetCmd
  | passwordResetCmd => initPasswordResetCmd
  | showCmd => initShowCmd
  | showClientCmd => initShowClientCmd
  | showDirCmd => initShowDirCmd
  | showFileCmd => initShowFileCmd
  | showHistoryCmd => initShowHistoryCmd
  | removeCmd => initRemoveCmd
  | removeClientCmd => initRemoveClientCmd
  | removeDirCmd => initRemoveDirCmd
  | removeFileCmd => initRemoveFileCmd
  | downloadCmd => initDownloadCmd
  | downloadFileCmd => initDownloadFileCmd
  end.

(** The package-level variable a flag is bound to. *)
Inductive Var :=
  | v_all | v_id | v_path | v_version | v_target
  | v_addr | v_port | v_port3 | v_password.

#[global] Instance Var_eq_dec : EqDecision Var.
Proof. solve_decision. Defined.

Record Flag := {
  flag_var : Var;
  flag_name : string;
  flag_shorthand : string     (* "" when the flag has none *)
}.

(** [c.Flags()] after the "set flags" block of [Run]. *)
Definition Flags (c : Command) : list Flag :=
  match c with
  | startServerCmd | runCmd =>
      [ {| flag_var := v_addr; flag_name := AddrOption; flag_shorthand := "" |};
        {| flag_var := v_port; flag_name := PortOption; flag_shorthand := "" |};
        {| flag_var := v_port3; flag_name := Port3Option; flag_shorthand := "" |} ]
  | passwordSetCmd =>
      [ {| flag_var := v_password; flag_name := PasswordOption; flag_shorthand := "" |} ]
  | showClientCmd | showDirCmd | showFileCmd | showHistoryCmd
  | removeClientCmd | removeDirCmd | removeFileCmd =>
      [ {| flag_var := v_all; flag_name := AllOption; flag_shorthand := AllShortOption |};
        {| flag_var := v_id; flag_name := IDOption; flag_shorthand := IDShortCommand |} ]
  | downloadFileCmd =>
      [ {| flag_var := v_path; flag_name := PathOption; flag_shorthand := PathShortCommand |};
        {| flag_var := v_version; flag_name := VersionOption; flag_shorthand := VersionShortCommand |};
        {| flag_var := v_target; flag_name := TargetOption; flag_shorthand := TargetShortCommand |} ]
  | _ => []
  end.

(** [AddCommand] *)
Definition children (c : Command) : list Command :=
  match c with
  | rootCmd => [startServerCmd; stopServerCmd; listenCmd; runCmd;
                passwordCmd; showCmd; removeCmd; downloadCmd]
  | passwordCmd => [passwordSetCmd; passwordResetCmd]
  | showCmd => [showClientCmd; showDirCmd; showFileCmd; showHistoryCmd]
  | removeCmd => [removeClientCmd; removeDirCmd; removeFileCmd]
  | downloadCmd => [downloadFileCmd]
  | _ => []
  end.

(** A value given to a flag on the command line, already read at the type
    of the flag ([--all] is [BoolVal true]). *)
Inductive FlagValue :=
  | BoolVal (b : bool)
  | StringVal (s : string)
  | Uint64Val (n : N).

(** One command line: the words that select the command, and the options
    given, by long name or shorthand, in order. *)
Record Invocation := {
  words : list string;
  options : list (string * FlagValue)
}.

(** Storing a flag value through the pointer the flag was registered with;
    [None] is a value the flag's type rejects. *)
Definition set_var (v : Var) (x : FlagValue) (g : Globals) : option Globals :=
  match v, x with
  | v_all, BoolVal b =>
      Some {| all := b; id := id g; path := path g; version := version g; target := target g;
              addr := addr g; port := port g; port3 := port3 g; password := password g |}
  | v_id, StringVal s =>
      Some {| all := all g; id := s; path := path g; version := version g; target := target g;
              addr := addr g; port := port g; port3 := port3 g; password := password g |}
  | v_path, StringVal s =>
      Some {| all := all g; id := id g; path := s; version := version g; target := target g;
              addr := addr g; port := port g; port3 := port3 g; password := password g |}
  | v_version, Uint64Val n =>
      if (n <? 2 ^ 64)%N then
        Some {| all := all g; id := id g; path := path g; version := n; target := target g;
                addr := addr g; port := port g; port3 := port3 g; password := password g |}
      else None
  | v_target, StringVal s =>
      Some {| all := all g; id := id g; path := path g; version := version g; target := s;
              addr := addr g; port := port g; port3 := port3 g; password := password g |}
  | v_addr, StringVal s =>
      Some {| all := all g; id := id g; path := path g; version := version g; target := target g;
              addr := s; port := port g; port3 := port3 g; password := password g |}
  | v_port, StringVal s =>
      Some {| all := all g; id := id g; path := path g; version := version g; target := target g;
              addr := addr g; port := s; port3 := port3 g; password := password g |}
  | v_port3, StringVal s =>
      Some {| all := all g; id := id g; path := path g; version := version g; target := target g;
              addr := addr g; port := port g; port3 := s; password := password g |}
  | v_password, StringVal s =>
      Some {| all := all g; id := id g; path := path g; version := version g; target := target g;
              addr := addr g; port := port g; port3 := port3 g; password := s |}
  | _, _ => None
  end.

(** The flag of [c] an option name designates. *)
Definition lookup_flag (c : Command) (name : string) : option Flag :=
  snd <$> list_find (λ f, flag_name f = name ∨ (flag_shorthand f ≠ "" ∧ flag_shorthand f = name))
                     (Flags c).

(** Flag parsing: every option must be a flag of the command; each one
    given overwrites the variable it is bound to. *)
Fixpoint ParseFlags (c : Command) (opts : list (string * FlagValue)) (g : Globals)
    : option Globals :=
  match opts with
  | [] => Some g
  | (name, x) :: opts' =>
      f ← lookup_flag c name ;
      g' ← set_var (flag_var f) x g ;
      ParseFlags c opts' g'
  end.

(** Descending the command tree along the words; what is left over are
    positional arguments of the command reached. *)
Fixpoint Find (c : Command) (ws : list string) : Command * list string :=
  match ws with
  | [] => (c, [])
  | w :: ws' =>
      match list_find (λ k, Use (command k) = w) (children c) with
      | Some (_, k) => Find k ws'
      | None => (c, ws)
      end
  end.

(** Running command [c] once its flags are parsed: a command without
    [RunE] prints its help and succeeds. *)
Definition run_command (c : Command) (env : Env) (g : Globals) : list Event * option error :=
  match RunE (command c) with
  | None => ([EHelp c], None)
  | Some run => runE (run env g)
  end.

(** [rootCmd.Execute()]: the trace and the error it returns.  The root
    command rejects unknown words. *)
Definition Execute (env : Env) (inv : Invocation) : list Event * option error :=
  let '(c, args) := Find rootCmd (words inv) in
  if bool_decide (c = rootCmd ∧ args ≠ []) then ([], Some (Err "unknown command"))
  else
    match ParseFlags c (options inv) initial with
    | None => ([], Some (Err "invalid flag"))
    | Some g => run_command c env g
    end.

(** [Run]: the process exit code (and the trace of the run). *)
Definition Run (env : Env) (inv : Invocation) : list Event * Z :=
  match Execute env inv with
  | (t, Some _) => (t, 1)
  | (t, None) => (t, 0)
  end%Z.

(** The HTTP requests of a trace. *)
Definition is_request (e : Event) : bool :=
  match e with EGet _ | EPost _ _ _ => true | _ => false end.

Definition requests (t : list Event) : list Event := List.filter is_request t.

(** The lines printed on standard output. *)
Definition printed (t : list Event) : list string :=
  omap (λ e, match e with EPrint l => Some l | _ => None end) t.

(** The files created and the data written to files. *)
Definition created (t : list Event) : list string :=
  omap (λ e, match e with ECreate n => Some n | _ => None end) t.

Definition written (t : list Event) : list (string * bytes) :=
  omap (λ e, match e with EWrite n d => Some (n, d) | _ => None end) t.

Definition dquote : string := String (ascii_of_nat 34) EmptyString.

(** A server that answers every request and never fails. *)
Definition agreeable (reply : bytes) : Env :=
  {| GetRequest := λ _, inl reply;
     PostRequest := λ _ _ _, inl [];
     Close := None;
     json_Marshal := λ s, inl (list_byte_of_string
       ("{" +:+ dquote +:+ "Password" +:+ dquote +:+ ":" +:+ dquote +:+ Password s +:+ dquote +:+ "}"));
     UnmarshalRequestBody := λ _ _ _ _, None;
     os_Create := λ _, None;
     file_Write := λ _ d, (Z.of_nat (length d), None);
     app_New := λ _ _ _, None;
     StartRestServer := None;
     app_Run := None |}.

End main.

(** * Properties of package main *)
Module main_facts.
Import main.

(** ** Decimal rendering and the download URL *)

(** [c] occurs in [s]. *)
Fixpoint occurs (c : ascii) (s : string) : Prop :=
  match s with
  | EmptyString => False
  | String a s' => a = c ∨ occurs c s'
  end.

Lemma digits_no_amp (d : uint) : ¬ occurs "&" (NilEmpty.string_of_uint d).
Proof. induction d; simpl; try tauto; (intros [H|H]; [discriminate | auto]). Qed.

Lemma Sprint_no_amp (n : N) : ¬ occurs "&" (Sprint n).
Proof. apply digits_no_amp. Qed.

Lemma Sprint_inj (n m : N) : Sprint n = Sprint m → n = m.
Proof.
  unfold Sprint. intros H.
  assert (Hu : N.to_uint n = N.to_uint m).
  { apply (f_equal NilEmpty.uint_of_string) in H.
    rewrite !NilEmpty.usu in H. by injection H. }
  rewrite <- (DecimalN.Unsigned.of_to n), <- (DecimalN.Unsigned.of_to m).
  by rewrite Hu.
Qed.

(** A string is cut in only one way at the last occurrence of a
    character. *)
Lemma cut_at_last (c : ascii) (a1 a2 d1 d2 : string) :
  ¬ occurs c d1 → ¬ occurs c d2 →
  a1 +:+ String c d1 = a2 +:+ String c d2 → a1 = a2 ∧ d1 = d2.
Proof.
  revert a2. induction a1 as [|x a1 IH]; intros [|y a2] H1 H2; simpl; intros Heq.
  - by injection Heq.
  - injection Heq as -> ->. exfalso. apply H1. clear. induction a2; simpl; auto.
  - injection Heq as -> <-. exfalso. apply H2. clear. induction a1; simpl; auto.
  - injection Heq as -> Heq. destruct (IH a2 H1 H2 Heq) as [-> ->]. done.
Qed.

Lemma downloadURL_inj (p1 p2 : string) (v1 v2 : N) :
  downloadURL p1 v1 = downloadURL p2 v2 → p1 = p2 ∧ v1 = v2.
Proof.
  unfold downloadURL. intros H. simpl in H. simplify_eq.
  match goal with H : _ = _ |- _ => apply cut_at_last in H as [-> H] end.
  - split; [done|]. apply Sprint_inj. simpl in H. by simplify_eq.
  - simpl. intros H'. repeat (destruct H' as [H'|H']; [discriminate|]).
    by apply Sprint_no_amp in H'.
  - simpl. intros H'. repeat (destruct H' as [H'|H']; [discriminate|]).
    by apply Sprint_no_amp in H'.
Qed.

(** ** The shapes of a run *)

Lemma EGet_inj (a b : string) : EGet a = EGet b → a = b.
Proof. by intros [= ->]. Qed.

(** Closes [e ∉ [e1; ...; en]] when each [ei] differs from [e] by its
    constructor or by a hypothesis. *)
Ltac not_in_trace :=
  repeat (apply not_elem_of_cons; split; [first [discriminate | assumption]|]);
  apply not_elem_of_nil.

Lemma getAndClose_eq (env : Env) (url : string) :
  getAndClose env url =
  match GetRequest env url with
  | inr err => ([ENewRestClient; EGet url; ELog ["quics err: "; Error err]], inr (Some err))
  | inl response =>
      match Close env with
      | Some err => ([ENewRestClient; EGet url; EClose; ELog ["quics err: "; Error err]],
                     inr (Some err))
      | None => ([ENewRestClient; EGet url; EClose], inl response)
      end
  end.
Proof.
  unfold getAndClose. destruct (GetRequest env url); [destruct (Close env)|]; reflexivity.
Qed.

Lemma postAndClose_eq (env : Env) (url : string) (body : option bytes) :
  runE (postAndClose env url body) =
  match PostRequest env url "application/json" body with
  | inr err => ([ENewRestClient; EPost url "application/json" body;
                 ELog ["quics err: "; Error err]], Some err)
  | inl _ =>
      match Close env with
      | Some err => ([ENewRestClient; EPost url "application/json" body; EClose;
                      ELog ["quics err: "; Error err]], Some err)
      | None => ([ENewRestClient; EPost url "application/json" body; EClose], None)
      end
  end.
Proof.
  unfold postAndClose.
  destruct (PostRequest env url "application/json" body); [destruct (Close env)|]; reflexivity.
Qed.

(** The guard of the download command, as a proposition. *)
Lemma download_guard_false (g : Globals) :
  path g ≠ "" → version g ≠ 0%N → target g ≠ "" →
  bool_decide (path g = "") || (version g =? 0)%N || bool_decide (target g = "") = false.
Proof.
  intros Hp Hv Ht. rewrite !bool_decide_eq_false_2 by done.
  by apply N.eqb_neq in Hv as ->.
Qed.

Lemma download_guard_true (g : Globals) :
  path g = "" ∨ version g = 0%N ∨ target g = "" →
  bool_decide (path g = "") || (version g =? 0)%N || bool_decide (target g = "") = true.
Proof.
  intros [H|[H|H]]; rewrite H; simpl; rewrite ?orb_true_r; done.
Qed.

Lemma download_refused (env : Env) (g : Globals) :
  path g = "" ∨ version g = 0%N ∨ target g = "" →
  run_command downloadFileCmd env g =
  ([ELog ["quics: "; "Please enter both path and version"]; EHelp downloadFileCmd], None).
Proof.
  intros H. unfold run_command. simpl. by rewrite (download_guard_true g H).
Qed.

(** The whole decision tree of the download command past its guard. *)
Lemma download_accepted (env : Env) (g : Globals) :
  path g ≠ "" → version g ≠ 0%N → target g ≠ "" →
  run_command downloadFileCmd env g =
  let url := downloadURL (path g) (version g) in
  match GetRequest env url with
  | inr err => ([ENewRestClient; EGet url; ELog ["quics err: "; Error err]], Some err)
  | inl response =>
      match Close env with
      | Some err => ([ENewRestClient; EGet url; EClose; ELog ["quics err: "; Error err]], Some err)
      | None =>
          match os_Create env (target g) with
          | Some err => ([ENewRestClient; EGet url; EClose; ECreate (target g)], Some err)
          | None =>
              ([ENewRestClient; EGet url; EClose; ECreate (target g);
                EWrite (target g) response; EFileClose (target g)],
               match file_Write env (target g) response with
               | (_, Some err) => Some err
               | (n, None) =>
                   if bool_decide (n = Z.of_nat (length response)) then None
                   else Some io_ErrShortWrite
               end)
          end
      end
  end.
Proof.
  intros Hp Hv Ht. unfold run_command. cbn [command RunE initDownloadFileCmd].
  rewrite (download_guard_false g Hp Hv Ht). rewrite getAndClose_eq.
  fold (downloadURL (path g) (version g)).
  destruct (GetRequest env _) as [response|err]; [|reflexivity].
  destruct (Close env); [reflexivity|].
  cbn. destruct (os_Create env (target g)); [reflexivity|].
  cbn. destruct (file_Write env (target g) response) as [n [e|]]; [reflexivity|].
  destruct (decide (n = Z.of_nat (length response))) as [Hn|Hn].
  - rewrite (bool_decide_eq_false_2 (n ≠ _)) by tauto.
    by rewrite (bool_decide_eq_true_2 _ Hn).
  - rewrite (bool_decide_eq_true_2 (n ≠ _)) by done.
    by rewrite (bool_decide_eq_false_2 _ Hn).
Qed.

(** [Execute] on the words of a command of the tree. *)
Lemma Execute_found (env : Env) (c : Command) (ws : list string) (opts : list (string * FlagValue)) :
  Find rootCmd ws = (c, []) →
  Execute env {| words := ws; options := opts |} =
  match ParseFlags c opts initial with
  | None => ([], Some (Err "invalid flag"))
  | Some g => run_command c env g
  end.
Proof.
  intros H. unfold Execute. cbn [words options]. rewrite H.
  rewrite bool_decide_eq_false_2; [done|]. by intros [_ ?].
Qed.

Lemma Run_trace (env : Env) (inv : Invocation) : (Run env inv).1 = (Execute env inv).1.
Proof. unfold Run. by destruct (Execute env inv) as [t [e|]]. Qed.

Lemma Run_code (env : Env) (inv : Invocation) :
  (Run env inv).2 = match (Execute env inv).2 with Some _ => 1%Z | None => 0%Z end.
Proof. unfold Run. by destruct (Execute env inv) as [t [e|]]. Qed.

(** ** The download command *)

(** An accepted invocation of the download command: its request, and
    what it writes once the response is in and the target is created. *)
Lemma download_invocation
    (env : Env) (opts : list (string * FlagValue)) (g : Globals) :
  ParseFlags downloadFileCmd opts initial = Some g →
  path g ≠ "" → version g ≠ 0%N → target g ≠ "" →
  let url := downloadURL (path g) (version g) in
  let run := Execute env {| words := ["download"; "file"]; options := opts |} in
  requests run.1 = [EGet url] ∧
  (∀ p v, downloadURL p v = url → p = path g ∧ v = version g) ∧
  (∀ response,
     GetRequest env url = inl response → Close env = None → os_Create env (target g) = None →
     created run.1 = [target g] ∧
     written run.1 = [(target g, response)] ∧
     run.2 = match file_Write env (target g) response with
             | (_, Some err) => Some err
             | (n, None) => if bool_decide (n = Z.of_nat (length response)) then None
                            else Some io_ErrShortWrite
             end).
Proof.
  intros Hparse Hp Hv Ht url run. subst run.
  rewrite (Execute_found env downloadFileCmd) by reflexivity.
  rewrite Hparse, (download_accepted env g Hp Hv Ht). cbn zeta. fold url.
  split; [|split].
  - destruct (GetRequest env url); [destruct (Close env); [|destruct (os_Create env _)]|];
      reflexivity.
  - intros p v. apply downloadURL_inj.
  - intros response -> -> ->. done.
Qed.

(** C1.  Every invocation of [download file] whose flags leave a non-empty
    path, a non-zero version and a non-empty target issues exactly one
    request, a GET of the URL built from that path and that version, and no
    other (path, version) pair gives that URL.  When the GET answers, the
    client closes and the target file is created, the command creates only
    the target, writes to it exactly the bytes of the response, once, and
    returns the write's error if there is one, [io.ErrShortWrite] if the
    count written is not the length of the response, and [nil] otherwise. *)
Theorem C1_download_get_and_verbatim_write
    (env : Env) (opts : list (string * FlagValue)) (g : Globals) :
  ParseFlags downloadFileCmd opts initial = Some g →
  path g ≠ "" → version g ≠ 0%N → target g ≠ "" →
  let url := downloadURL (path g) (version g) in
  let run := Execute env {| words := ["download"; "file"]; options := opts |} in
  requests run.1 = [EGet url] ∧
  (∀ p v, downloadURL p v = url → p = path g ∧ v = version g) ∧
  (∀ response,
     GetRequest env url = inl response → Close env = None → os_Create env (target g) = None →
     created run.1 = [target g] ∧
     written run.1 = [(target g, response)] ∧
     run.2 = match file_Write env (target g) response with
             | (_, Some err) => Some err
             | (n, None) => if bool_decide (n = Z.of_nat (length response)) then None
                            else Some io_ErrShortWrite
             end).
Proof. apply download_invocation. Qed.

(** C9.  An invocation of [download file] whose flags leave the path
    empty, the version 0 or the target empty only logs and prints the help:
    no request, no file, [nil] from [Execute] and exit code 0 from [Run].
    And no invocation whatever ever requests version 0. *)
Theorem C9_download_refused_is_success
    (env : Env) (opts : list (string * FlagValue)) (g : Globals) :
  ParseFlags downloadFileCmd opts initial = Some g →
  path g = "" ∨ version g = 0%N ∨ target g = "" →
  let inv := {| words := ["download"; "file"]; options := opts |} in
  Execute env inv =
    ([ELog ["quics: "; "Please enter both path and version"]; EHelp downloadFileCmd], None) ∧
  (Run env inv).2 = 0%Z ∧
  requests (Run env inv).1 = [] ∧
  created (Run env inv).1 = [] ∧
  written (Run env inv).1 = [] ∧
  (∀ env' opts' p,
     EGet (downloadURL p 0) ∉
       (Run env' {| words := ["download"; "file"]; options := opts' |}).1).
Proof.
  intros Hparse Hg inv.
  assert (HE : Execute env inv =
    ([ELog ["quics: "; "Please enter both path and version"]; EHelp downloadFileCmd], None)).
  { unfold inv. rewrite (Execute_found env downloadFileCmd) by reflexivity.
    by rewrite Hparse, (download_refused env g Hg). }
  split; [done|]. rewrite Run_code, !Run_trace, HE. repeat (split; [done|]).
  clear. intros env opts p. rewrite Run_trace.
  rewrite (Execute_found env downloadFileCmd) by reflexivity.
  destruct (ParseFlags downloadFileCmd opts initial) as [g|]; [|apply not_elem_of_nil].
  destruct (decide (path g = "")) as [Hp|Hp];
    [rewrite download_refused by auto; not_in_trace|].
  destruct (decide (version g = 0%N)) as [Hv|Hv];
    [rewrite download_refused by auto; not_in_trace|].
  destruct (decide (target g = "")) as [Ht|Ht];
    [rewrite download_refused by auto; not_in_trace|].
  rewrite (download_accepted env g Hp Hv Ht). cbn zeta.
  assert (Hne : EGet (downloadURL p 0) ≠ EGet (downloadURL (path g) (version g))).
  { intros H%EGet_inj%downloadURL_inj. destruct H. congruence. }
  destruct (GetRequest env _); [destruct (Close env); [|destruct (os_Create env _)]|];
    cbn [fst]; not_in_trace.
Qed.

(** ** The show and remove commands *)

(** The words that select each command. *)
Definition commandWords (c : Command) : list string :=
  match c with
  | rootCmd => []
  | startServerCmd => ["start"]
  | stopServerCmd => ["stop"]
  | listenCmd => ["listen"]
  | runCmd => ["run"]
  | passwordCmd => ["password"]
  | passwordSetCmd => ["password"; "set"]
  | passwordResetCmd => ["password"; "reset"]
  | showCmd => ["show"]
  | showClientCmd => ["show"; "client"]
  | showDirCmd => ["show"; "dir"]
  | showFileCmd => ["show"; "file"]
  | showHistoryCmd => ["show"; "history"]
  | removeCmd => ["remove"]
  | removeClientCmd => ["remove"; "client"]
  | removeDirCmd => ["remove"; "dir"]
  | removeFileCmd => ["remove"; "file"]
  | downloadCmd => ["download"]
  | downloadFileCmd => ["download"; "file"]
  end.

Lemma Find_commandWords (c : Command) : Find rootCmd (commandWords c) = (c, []).
Proof. by destruct c. Qed.

Definition show_commands : list Command :=
  [showClientCmd; showDirCmd; showFileCmd; showHistoryCmd].

Definition remove_commands : list Command :=
  [removeClientCmd; removeDirCmd; removeFileCmd].

(** The commands whose URL is built from the variable [path]. *)
Definition path_commands : list Command :=
  [showDirCmd; showFileCmd; showHistoryCmd; removeDirCmd; removeFileCmd].

(** The request of a show or remove command whose URL ends in the
    identifier [ident] (as the source spells each URL). *)
Definition request_with (c : Command) (ident : string) : list Event :=
  match c with
  | showClientCmd => [EGet ("/api/v1/server/logs/clients?uuid=" +:+ ident)]
  | showDirCmd => [EGet ("/api/v1/server/logs/directories?afterPath=" +:+ ident)]
  | showFileCmd => [EGet ("/api/v1/server/logs/files?afterPath=" +:+ ident)]
  | showHistoryCmd => [EGet ("/api/v1/server/logs/histories?afterPath=" +:+ ident)]
  | removeClientCmd =>
      [EPost ("/api/v1/server/remove/clients?uuid=" +:+ ident) "application/json" None]
  | removeDirCmd =>
      [EPost ("/api/v1/server/remove/directories?afterPath=" +:+ ident) "application/json" None]
  | removeFileCmd =>
      [EPost ("/api/v1/server/remove/files?afterPath=" +:+ ident) "application/json" None]
  | _ => []
  end.

(** The variable each of them puts at the end of its URL. *)
Definition identifier (c : Command) (g : Globals) : string :=
  match c with
  | showClientCmd | removeClientCmd => id g
  | _ => path g
  end.

(** Membership of a given command in one of these lists. *)
Ltac in_commands :=
  unfold show_commands, remove_commands, path_commands; cbn [app];
  rewrite ?elem_of_cons; auto 12.

(** What [validateOptionByCommand] leaves in the trace. *)
Definition validation (c : Command) (g : Globals) : list Event :=
  if negb (all g) && bool_decide (id g = "")
  then [ELog ["quics: "; "Please enter only one option"]; EHelp c]
  else [].

(** The answer of the collaborator to a request. *)
Definition answer (env : Env) (e : Event) : option (bytes + error) :=
  match e with
  | EGet url => Some (GetRequest env url)
  | EPost url ct body => Some (PostRequest env url ct body)
  | _ => None
  end.

Definition answered (env : Env) (e : Event) : Prop :=
  ∃ response, answer env e = Some (inl response).

(** A slice of length 0 is still of length 0 after the call. *)
Lemma slice_after_call_nil {A} (w : nat → option A) : slice_after_call w [] = [].
Proof. reflexivity. Qed.

(** The decision tree of a show command. *)
Lemma show_shape (env : Env) (c : Command) (g : Globals) :
  c ∈ show_commands →
  ∃ req, request_with c (identifier c g) = [req] ∧ is_request req = true ∧
  run_command c env g =
  match answer env req with
  | Some (inl response) =>
      match Close env with
      | Some err => (validation c g ++ [ENewRestClient; req; EClose;
                                        ELog ["quics err: "; Error err]], Some err)
      | None => (validation c g ++ [ENewRestClient; req; EClose; EUnmarshal response], None)
      end
  | Some (inr err) =>
      (validation c g ++ [ENewRestClient; req; ELog ["quics err: "; Error err]], Some err)
  | None => ([], None)
  end.
Proof.
  unfold show_commands. rewrite !elem_of_cons, elem_of_nil.
  intros [->|[->|[->|[->|[]]]]]; (eexists; split; [reflexivity|split; [reflexivity|]]);
    unfold run_command, validation;
    cbn [command RunE initShowClientCmd initShowDirCmd initShowFileCmd initShowHistoryCmd
         identifier answer];
    unfold validateOptionByCommand, unmarshalInto;
    rewrite getAndClose_eq;
    destruct (negb (all g) && bool_decide (id g = ""));
    (destruct (GetRequest env _); [destruct (Close env)|]); reflexivity.
Qed.

(** The decision tree of a remove command. *)
Lemma remove_shape (env : Env) (c : Command) (g : Globals) :
  c ∈ remove_commands →
  ∃ req, request_with c (identifier c g) = [req] ∧ is_request req = true ∧
  run_command c env g =
  match answer env req with
  | Some (inl _) =>
      match Close env with
      | Some err => (validation c g ++ [ENewRestClient; req; EClose;
                                        ELog ["quics err: "; Error err]], Some err)
      | None => (validation c g ++ [ENewRestClient; req; EClose], None)
      end
  | Some (inr err) =>
      (validation c g ++ [ENewRestClient; req; ELog ["quics err: "; Error err]], Some err)
  | None => ([], None)
  end.
Proof.
  unfold remove_commands. rewrite !elem_of_cons, elem_of_nil.
  intros [->|[->|[->|[]]]]; (eexists; split; [reflexivity|split; [reflexivity|]]);
    unfold run_command, validation;
    cbn [command RunE initRemoveClientCmd initRemoveDirCmd initRemoveFileCmd identifier answer];
    unfold validateOptionByCommand, postAndClose;
    destruct (negb (all g) && bool_decide (id g = ""));
    (destruct (PostRequest env _ _ _); [destruct (Close env)|]); reflexivity.
Qed.

Lemma requests_validation (c : Command) (g : Globals) (t : list Event) :
  requests (validation c g ++ t) = requests t.
Proof. unfold validation. by destruct (negb (all g) && bool_decide (id g = "")). Qed.

Lemma printed_validation (c : Command) (g : Globals) (t : list Event) :
  printed (validation c g ++ t) = printed t.
Proof. unfold validation. by destruct (negb (all g) && bool_decide (id g = "")). Qed.

(** What every run of a show or remove command has in common. *)
Lemma show_remove_run (env : Env) (c : Command) (g : Globals) :
  c ∈ show_commands ++ remove_commands →
  ∃ req rest,
    request_with c (identifier c g) = [req] ∧
    (run_command c env g).1 = validation c g ++ ENewRestClient :: req :: rest ∧
    requests (run_command c env g).1 = [req] ∧
    printed (run_command c env g).1 = [] ∧
    (answered env req → Close env = None → (run_command c env g).2 = None).
Proof.
  intros Hc. apply elem_of_app in Hc as [Hc|Hc];
    [destruct (show_shape env c g Hc) as (req & Hreq & Hr & ->)
    |destruct (remove_shape env c g Hc) as (req & Hreq & Hr & ->)].
  all: (destruct req; try discriminate Hr; cbn [answer];
     (match goal with |- context [match ?x with inl _ => _ | inr _ => _ end] =>
        destruct x as [response|err] eqn:Hanswer end;
      [destruct (Close env) as [err|] eqn:Hclose|]);
     eexists _, _; (split; [exact Hreq|]); (split; [reflexivity|]);
     cbn [fst snd]; rewrite requests_validation, printed_validation;
     (split; [reflexivity|]); (split; [reflexivity|]);
     intros [response' Ha] Hcl; cbn [answer] in Ha; congruence).
Qed.

(** ** Flag parsing leaves unbound variables alone *)

(** Reading a package-level variable. *)
Definition get_var (v : Var) (g : Globals) : FlagValue :=
  match v with
  | v_all => BoolVal (all g)
  | v_id => StringVal (id g)
  | v_path => StringVal (path g)
  | v_version => Uint64Val (version g)
  | v_target => StringVal (target g)
  | v_addr => StringVal (addr g)
  | v_port => StringVal (port g)
  | v_port3 => StringVal (port3 g)
  | v_password => StringVal (password g)
  end.

Lemma set_var_other (v v' : Var) (x : FlagValue) (g g' : Globals) :
  set_var v x g = Some g' → v' ≠ v → get_var v' g' = get_var v' g.
Proof.
  intros H Hne. destruct v, x; simpl in H; try discriminate H;
    try (destruct (_ <? _)%N; [|discriminate H]);
    injection H as <-; by destruct v'.
Qed.

Lemma set_var_same (v : Var) (x : FlagValue) (g g' : Globals) :
  set_var v x g = Some g' → get_var v g' = x.
Proof.
  intros H. destruct v, x; simpl in H; try discriminate H;
    try (destruct (_ <? _)%N; [|discriminate H]);
    by injection H as <-.
Qed.

Lemma lookup_flag_elem_of (c : Command) (name : string) (f : Flag) :
  lookup_flag c name = Some f → f ∈ Flags c.
Proof.
  unfold lookup_flag. intros H. apply fmap_Some in H as ([i f'] & H & ->).
  apply list_find_Some in H as (H & _ & _). by eapply list_elem_of_lookup_2.
Qed.

Lemma ParseFlags_frame (c : Command) (opts : list (string * FlagValue)) (g0 g : Globals) (v : Var) :
  ParseFlags c opts g0 = Some g →
  v ∉ (flag_var <$> Flags c) →
  get_var v g = get_var v g0.
Proof.
  intros H Hv. revert g0 H. induction opts as [|[name x] opts IH]; intros g0 H; simpl in H.
  - by injection H as <-.
  - destruct (lookup_flag c name) as [f|] eqn:Hf; [|discriminate H]. simpl in H.
    destruct (set_var (flag_var f) x g0) as [g1|] eqn:Hs; [|discriminate H]. simpl in H.
    rewrite (IH g1 H). eapply set_var_other; [exact Hs|].
    intros ->. apply Hv, list_elem_of_fmap. eauto using lookup_flag_elem_of.
Qed.

(** No show or remove command binds a flag to [path]. *)
Lemma show_remove_path_unbound (c : Command) :
  c ∈ show_commands ++ remove_commands → v_path ∉ (flag_var <$> Flags c).
Proof.
  unfold show_commands, remove_commands. cbn [app]. rewrite !elem_of_cons, elem_of_nil.
  intros H Hin. repeat (destruct H as [->|H]; [by repeat (apply elem_of_cons in Hin as [?|Hin]; [discriminate|]); apply elem_of_nil in Hin|]).
  done.
Qed.

Lemma show_remove_path_empty (c : Command) (opts : list (string * FlagValue)) (g : Globals) :
  c ∈ show_commands ++ remove_commands →
  ParseFlags c opts initial = Some g → path g = "".
Proof.
  intros Hc H.
  pose proof (ParseFlags_frame c opts initial g v_path H (show_remove_path_unbound c Hc)) as Hp.
  simpl in Hp. by injection Hp.
Qed.

Lemma path_commands_show_remove (c : Command) :
  c ∈ path_commands → c ∈ show_commands ++ remove_commands.
Proof.
  unfold path_commands, show_commands, remove_commands. cbn [app].
  rewrite !elem_of_cons, !elem_of_nil. tauto.
Qed.

Lemma path_commands_identifier (c : Command) (g : Globals) :
  c ∈ path_commands → identifier c g = path g.
Proof.
  unfold path_commands. rewrite !elem_of_cons, elem_of_nil.
  intros [->|[->|[->|[->|[->|[]]]]]]; reflexivity.
Qed.

(** A whole invocation of a show or remove command. *)
Lemma show_remove_Execute (env : Env) (c : Command) (opts : list (string * FlagValue)) :
  c ∈ show_commands ++ remove_commands →
  Execute env {| words := commandWords c; options := opts |} =
  match ParseFlags c opts initial with
  | None => ([], Some (Err "invalid flag"))
  | Some g => run_command c env g
  end.
Proof. intros _. apply Execute_found, Find_commandWords. Qed.

(** ** Claims on the show and remove commands *)

(** C8.  A show or remove subcommand invoked with neither [--all] nor an
    identifier still goes on after the validation helper: its trace starts
    with the helper's log line and help text, then opens the REST client and
    issues the command's request with an empty identifier, its only request;
    and when that request is answered and the client closes, [Execute]
    returns [nil] and the exit code is 0. *)
Theorem C8_missing_option_still_requests
    (env : Env) (c : Command) (opts : list (string * FlagValue)) (g : Globals) :
  c ∈ show_commands ++ remove_commands →
  ParseFlags c opts initial = Some g →
  all g = false → id g = "" →
  let inv := {| words := commandWords c; options := opts |} in
  ∃ req rest,
    request_with c "" = [req] ∧
    (Execute env inv).1 =
      [ELog ["quics: "; "Please enter only one option"]; EHelp c; ENewRestClient; req] ++ rest ∧
    requests (Execute env inv).1 = [req] ∧
    (answered env req → Close env = None →
       (Execute env inv).2 = None ∧ (Run env inv).2 = 0%Z).
Proof.
  intros Hc Hparse Hall Hid inv.
  assert (Hident : identifier c g = "").
  { pose proof (show_remove_path_empty c opts g Hc Hparse) as Hp.
    unfold identifier. by destruct c. }
  assert (Hval : validation c g = [ELog ["quics: "; "Please enter only one option"]; EHelp c]).
  { unfold validation. by rewrite Hall, Hid. }
  unfold inv. rewrite Run_code, (show_remove_Execute env c opts Hc), Hparse.
  destruct (show_remove_run env c g Hc) as (req & rest & Hreq & Ht & Hr & _ & Hok).
  rewrite Hident in Hreq. rewrite Hval in Ht.
  exists req, rest. split_and!; [done..|].
  intros Ha Hcl. by rewrite (Hok Ha Hcl).
Qed.

(** C10.  For show dir, show file, show history, remove dir and remove
    file: no flag of the command is bound to [path]; the command's only
    request is the one whose URL ends in the value of [path], whatever [id]
    holds; and in an invocation of the command, whatever is given to [--id],
    [path] is empty and the request carries an empty identifier (when the
    options are rejected there is no request at all). *)
Theorem C10_id_flag_never_transmitted
    (env : Env) (c : Command) (opts : list (string * FlagValue)) :
  c ∈ path_commands →
  let inv := {| words := commandWords c; options := opts |} in
  (v_path ∉ (flag_var <$> Flags c)) ∧
  (∀ g, requests (run_command c env g).1 = request_with c (path g)) ∧
  (∀ g, ParseFlags c opts initial = Some g →
        path g = "" ∧ requests (Execute env inv).1 = request_with c "") ∧
  (ParseFlags c opts initial = None → requests (Execute env inv).1 = []).
Proof.
  intros Hp inv. pose proof (path_commands_show_remove c Hp) as Hc.
  assert (Hrun : ∀ g, requests (run_command c env g).1 = request_with c (path g)).
  { intros g. destruct (show_remove_run env c g Hc) as (req & rest & Hreq & _ & -> & _).
    by rewrite <- Hreq, (path_commands_identifier c g Hp). }
  split; [by apply show_remove_path_unbound|]. split; [done|].
  unfold inv. rewrite (show_remove_Execute env c opts Hc). split.
  - intros g Hparse. rewrite Hparse, Hrun.
    by rewrite (show_remove_path_empty c opts g Hc Hparse).
  - by intros ->.
Qed.

(** C3.  Removing all and removing one are to be told apart by the
    server.  For remove dir and remove file they are not: whatever
    identifier is given to [--id], the request is the one [--all] sends, with
    an empty [afterPath]; at the directory [/docs] and the file
    [/docs/notes.txt] the whole runs coincide.  (For remove client the
    identifier does reach the URL.) *)
Theorem C3_remove_dir_file_same_request_for_all_and_id (env : Env) (s : string) :
  let remove kind opts := Run env {| words := ["remove"; kind]; options := opts |} in
  requests (remove "dir" [("id", StringVal s)]).1 =
    [EPost "/api/v1/server/remove/directories?afterPath=" "application/json" None] ∧
  requests (remove "dir" [("all", BoolVal true)]).1 =
    [EPost "/api/v1/server/remove/directories?afterPath=" "application/json" None] ∧
  requests (remove "file" [("id", StringVal s)]).1 =
    [EPost "/api/v1/server/remove/files?afterPath=" "application/json" None] ∧
  requests (remove "file" [("all", BoolVal true)]).1 =
    [EPost "/api/v1/server/remove/files?afterPath=" "application/json" None] ∧
  remove "dir" [("id", StringVal "/docs")] = remove "dir" [("all", BoolVal true)] ∧
  remove "file" [("id", StringVal "/docs/notes.txt")] = remove "file" [("all", BoolVal true)] ∧
  requests (remove "client" [("id", StringVal s)]).1 =
    [EPost ("/api/v1/server/remove/clients?uuid=" +:+ s) "application/json" None].
Proof.
  intros remove. subst remove. cbv beta. rewrite !Run_trace.
  change ["remove"; "dir"] with (commandWords removeDirCmd).
  change ["remove"; "file"] with (commandWords removeFileCmd).
  change ["remove"; "client"] with (commandWords removeClientCmd).
  assert (Hreq : ∀ c opts g,
    c ∈ show_commands ++ remove_commands →
    ParseFlags c opts initial = Some g →
    requests (Execute env {| words := commandWords c; options := opts |}).1 =
    request_with c (identifier c g)).
  { intros c opts g Hc Hparse. rewrite (show_remove_Execute env c opts Hc), Hparse.
    by destruct (show_remove_run env c g Hc) as (req & rest & -> & _ & -> & _). }
  assert (Hd : removeDirCmd ∈ show_commands ++ remove_commands) by in_commands.
  assert (Hf : removeFileCmd ∈ show_commands ++ remove_commands) by in_commands.
  assert (Hcl : removeClientCmd ∈ show_commands ++ remove_commands) by in_commands.
  split_and!.
  - by rewrite (Hreq removeDirCmd [("id", StringVal s)] _ Hd eq_refl).
  - by rewrite (Hreq removeDirCmd [("all", BoolVal true)] _ Hd eq_refl).
  - by rewrite (Hreq removeFileCmd [("id", StringVal s)] _ Hf eq_refl).
  - by rewrite (Hreq removeFileCmd [("all", BoolVal true)] _ Hf eq_refl).
  - unfold Run. rewrite !(show_remove_Execute env removeDirCmd _ Hd). cbn [ParseFlags].
    reflexivity.
  - unfold Run. rewrite !(show_remove_Execute env removeFileCmd _ Hf). reflexivity.
  - by rewrite (Hreq removeClientCmd [("id", StringVal s)] _ Hcl eq_refl).
Qed.

(** A server whose reply to every GET is [reply], and a decoder that
    offers the clients [decoded] to the slice it is handed, element by
    element. *)
Definition serving (reply : bytes) (decoded : list Client) : Env :=
  {| GetRequest := λ _, inl reply;
     PostRequest := λ _ _ _, inl [];
     Close := None;
     json_Marshal := json_Marshal (agreeable []);
     UnmarshalRequestBody := λ k,
       match k with
       | ElemClient => λ _ _ i, decoded !! i
       | _ => λ _ _ _, None
       end;
     os_Create := λ _, None;
     file_Write := λ _ d, (Z.of_nat (length d), None);
     app_New := λ _ _ _, None;
     StartRestServer := None;
     app_Run := None |}.

(** The JSON text of a list holding one client. *)
Definition oneClientJSON : bytes :=
  list_byte_of_string
    ("[{" +:+ dquote +:+ "UUID" +:+ dquote +:+ ":" +:+ dquote +:+ "c-1" +:+ dquote +:+ ","
     +:+ dquote +:+ "Id" +:+ dquote +:+ ":1,"
     +:+ dquote +:+ "Ip" +:+ dquote +:+ ":" +:+ dquote +:+ "10.0.0.7" +:+ dquote +:+ ","
     +:+ dquote +:+ "Root" +:+ dquote +:+ ":[" +:+ dquote +:+ "/docs" +:+ dquote +:+ "]}]").

Definition oneClient : Client :=
  {| UUID := "c-1"; Id := 1; Ip := "10.0.0.7"; Root := ["/docs"] |}.

(** C5.  One line is due per client the server returns.  The command
    hands its empty slice [clients] to the decoder by value, so the
    slice is still empty when the loop runs: show client prints nothing,
    whatever the server returns and whatever the decoder does; so it is with
    a server returning one client, member of [/docs], to [show client --all],
    where the run is the request, the close and the decoding and no line. *)
Theorem C5_show_client_prints_nothing (env : Env) (opts : list (string * FlagValue)) (g : Globals) :
  printed (run_command showClientCmd env g).1 = [] ∧
  printed (Run env {| words := ["show"; "client"]; options := opts |}).1 = [] ∧
  Run (serving oneClientJSON [oneClient])
      {| words := ["show"; "client"]; options := [("all", BoolVal true)] |} =
    ([ENewRestClient; EGet "/api/v1/server/logs/clients?uuid="; EClose;
      EUnmarshal oneClientJSON], 0%Z).
Proof.
  assert (Hc : showClientCmd ∈ show_commands ++ remove_commands) by in_commands.
  assert (H : ∀ g', printed (run_command showClientCmd env g').1 = []).
  { intros g'. by destruct (show_remove_run env showClientCmd g' Hc) as (? & ? & _ & _ & _ & ? & _). }
  split; [apply H|]. split; [|reflexivity].
  change ["show"; "client"] with (commandWords showClientCmd).
  rewrite Run_trace, (show_remove_Execute env showClientCmd opts Hc).
  destruct (ParseFlags showClientCmd opts initial); [apply H|reflexivity].
Qed.

(** ** The password commands *)

(** Changing one package-level variable. *)
Definition with_path (p : string) (g : Globals) : Globals :=
  {| all := all g; id := id g; path := p; version := version g; target := target g;
     addr := addr g; port := port g; port3 := port3 g; password := password g |}.

Definition with_password (pw : string) (g : Globals) : Globals :=
  {| all := all g; id := id g; path := path g; version := version g; target := target g;
     addr := addr g; port := port g; port3 := port3 g; password := pw |}.

Definition with_all (b : bool) (g : Globals) : Globals :=
  {| all := b; id := id g; path := path g; version := version g; target := target g;
     addr := addr g; port := port g; port3 := port3 g; password := password g |}.

(** The decision tree of password set. *)
Lemma password_set_shape (env : Env) (g : Globals) :
  run_command passwordSetCmd env g =
  if bool_decide (password g = "") then
    ([ELog ["quics: "; "Please enter password"]; EHelp passwordSetCmd], None)
  else
    let server := {| Password := password g |} in
    match json_Marshal env server with
    | inr err => ([EMarshal server; ELog ["quics err: "; Error err]], Some err)
    | inl body =>
        (EMarshal server :: (runE (postAndClose env "/api/v1/server/password/set" (Some body))).1,
         (runE (postAndClose env "/api/v1/server/password/set" (Some body))).2)
    end.
Proof.
  unfold run_command. cbn [command RunE initPasswordSetCmd].
  destruct (bool_decide (password g = "")); [reflexivity|]. cbn zeta.
  destruct (json_Marshal env _) as [body|err]; [|reflexivity].
  unfold postAndClose. cbn.
  destruct (PostRequest env _ _ _); [destruct (Close env)|]; reflexivity.
Qed.

Lemma password_reset_shape (env : Env) (g : Globals) :
  run_command passwordResetCmd env g =
  runE (postAndClose env "/api/v1/server/password/reset" None).
Proof. reflexivity. Qed.

Lemma requests_postAndClose (env : Env) (url : string) (body : option bytes) :
  requests (runE (postAndClose env url body)).1 = [EPost url "application/json" body].
Proof.
  rewrite postAndClose_eq.
  destruct (PostRequest env _ _ _); [destruct (Close env)|]; reflexivity.
Qed.

(** The requests of the password commands.  They name no root
    directory: password set posts to [/api/v1/server/password/set] the
    marshalled [Server] record that holds the new password and nothing else,
    password reset posts to [/api/v1/server/password/reset] with no body;
    the only flag of the two is [--pw]; and the run of either is the same in
    any two states of the package-level variables that agree on the password
    (for reset: in any two states). *)
Lemma password_requests_name_no_root_directory (env : Env) (g : Globals) :
  password g ≠ "" →
  (∀ body, json_Marshal env {| Password := password g |} = inl body →
     requests (run_command passwordSetCmd env g).1 =
       [EPost "/api/v1/server/password/set" "application/json" (Some body)]) ∧
  requests (run_command passwordResetCmd env g).1 =
    [EPost "/api/v1/server/password/reset" "application/json" None] ∧
  (∀ g', password g' = password g →
     run_command passwordSetCmd env g' = run_command passwordSetCmd env g) ∧
  (∀ g', run_command passwordResetCmd env g' = run_command passwordResetCmd env g) ∧
  flag_var <$> Flags passwordSetCmd = [v_password] ∧
  Flags passwordResetCmd = [].
Proof.
  intros Hpw. split_and!; [| |intros g' Heq|done..].
  - intros body Hbody. rewrite password_set_shape, bool_decide_eq_false_2 by done.
    cbn zeta. rewrite Hbody. cbn [fst requests List.filter is_request].
    f_equal. apply requests_postAndClose.
  - rewrite password_reset_shape. apply requests_postAndClose.
  - by rewrite !password_set_shape, Heq.
Qed.

(** C4, as stated, fails: with the password [s3cret] and the variable
    [path] holding [/docs] or [/music], password set runs the same, its one
    request carrying the password alone; a path on its command line is
    refused before any request; and password reset sends no body at all. *)
Lemma C4_password_set_has_no_path :
  let set_in root :=
    run_command passwordSetCmd (agreeable []) (with_path root (with_password "s3cret" initial)) in
  set_in "/docs" = set_in "/music" ∧
  requests (set_in "/docs").1 =
    [EPost "/api/v1/server/password/set" "application/json"
       (Some (list_byte_of_string
          ("{" +:+ dquote +:+ "Password" +:+ dquote +:+ ":" +:+ dquote +:+ "s3cret" +:+ dquote +:+ "}")))] ∧
  Run (agreeable []) {| words := ["password"; "set"];
                        options := [("path", StringVal "/docs"); ("pw", StringVal "s3cret")] |}
    = ([], 1%Z) ∧
  Run (agreeable []) {| words := ["password"; "reset"];
                        options := [("path", StringVal "/docs")] |} = ([], 1%Z) ∧
  requests (Run (agreeable []) {| words := ["password"; "reset"]; options := [] |}).1 =
    [EPost "/api/v1/server/password/reset" "application/json" None].
Proof. by vm_compute. Qed.

(** ** Dependence on the package-level variables *)

(** The package-level variables the [RunE] of each command reads. *)
Definition reads (c : Command) : list Var :=
  match c with
  | startServerCmd | runCmd => [v_addr; v_port; v_port3]
  | passwordSetCmd => [v_password]
  | showClientCmd | removeClientCmd => [v_all; v_id]
  | showDirCmd | showFileCmd | showHistoryCmd | removeDirCmd | removeFileCmd =>
      [v_all; v_id; v_path]
  | downloadFileCmd => [v_path; v_version; v_target]
  | _ => []
  end.

Definition agree_on (vs : list Var) (g g' : Globals) : Prop :=
  Forall (λ v, get_var v g = get_var v g') vs.

Lemma run_command_reads (env : Env) (c : Command) (g g' : Globals) :
  agree_on (reads c) g g' → run_command c env g = run_command c env g'.
Proof.
  unfold agree_on. intros H.
  destruct c; cbn [reads] in H;
    repeat (apply Forall_cons in H as [? H]);
    destruct g, g'; simpl in *; simplify_eq; reflexivity.
Qed.

(** The run of a command is the same in any two
    states of the package-level variables that agree on the variables the
    command reads; an invocation runs the command in the state reached from
    the initial values by its own options, in which every variable that is
    not bound to a flag of the command still has its initial value. *)
Lemma run_depends_on_variables_read
    (env : Env) (c : Command) (g g' : Globals) (opts : list (string * FlagValue)) (g1 : Globals) :
  agree_on (reads c) g g' →
  ParseFlags c opts initial = Some g1 →
  run_command c env g = run_command c env g' ∧
  Execute env {| words := commandWords c; options := opts |} = run_command c env g1 ∧
  (∀ v, v ∉ (flag_var <$> Flags c) → get_var v g1 = get_var v initial).
Proof.
  intros Hagree Hparse. split_and!.
  - by apply run_command_reads.
  - by rewrite (Execute_found env c _ opts (Find_commandWords c)), Hparse.
  - intros v Hv. by apply (ParseFlags_frame c opts).
Qed.

End main_facts.

(** * The engine behind the REST layer: version lookup and download

    The sources hold the caller of the download endpoint only.  What
    answers it is described by the specification (History Log, section 4.5;
    download path, section 6; error taxonomy, section 7). *)
Module history.
Import main main_facts.

(** Modelled from the spec: the failures of the error taxonomy (section 7),
    which no source file declares. *)
Inductive Failure :=
  | NotFound | AlreadyExists | Unauthorized | Conflict
  | StorageUnavailable | Corrupted | InvalidState.

(** Modelled from the spec: the names of the failures, as section 7 spells
    them. *)
Definition failure_name (f : Failure) : string :=
  match f with
  | NotFound => "NotFound"
  | AlreadyExists => "AlreadyExists"
  | Unauthorized => "Unauthorized"
  | Conflict => "Conflict"
  | StorageUnavailable => "StorageUnavailable"
  | Corrupted => "Corrupted"
  | InvalidState => "InvalidState"
  end.

(** Modelled from the spec: failures are surfaced to the caller; the REST
    client receives one as an error bearing its name. *)
Definition failure_error (f : Failure) : error := Err (failure_name f).

(** Modelled from the spec: the History Log, absent from the sources, as
    its lookup index: the version records under (path, version timestamp), a
    rename record being indexed under both of its paths.
    [GetVersion(path, timestamp) -> FileHistory | NotFound] is the
    exact-match lookup; if no record matches, it fails [NotFound]. *)
Definition GetVersion (log : gmap (string * N) FileHistory) (p : string) (timestamp : N)
    : FileHistory + Failure :=
  match log !! (p, timestamp) with
  | Some h => inl h
  | None => inr NotFound
  end.

(** Modelled from the spec: the download path, absent from the sources:
    given (path, timestamp), resolve via [GetVersion] to a content hash, then
    fetch the corresponding blob from the content store, keyed by hash, and
    return it verbatim; a missing hash-to-blob mapping is [Corrupted], not
    [NotFound]. *)
Definition Download (log : gmap (string * N) FileHistory) (blobs : gmap string bytes)
    (p : string) (timestamp : N) : bytes + Failure :=
  match GetVersion log p timestamp with
  | inr f => inr f
  | inl h =>
      match blobs !! Hash h with
      | Some blob => inl blob
      | None => inr Corrupted
      end
  end.

(** Modelled from the spec: the answer of the endpoint, the blob verbatim
    or the failure surfaced. *)
Definition response (r : bytes + Failure) : bytes + error :=
  match r with
  | inl b => inl b
  | inr f => inr (failure_error f)
  end.

(** Modelled from the spec: the REST layer in front of the engine, absent
    from the sources, for the download endpoint: a GET of the download URL of
    (path, timestamp) is answered by [Download] at that pair.  The URL of a
    recorded version is recognised by comparing it with the URL of each
    record; any other URL of the endpoint names no recorded version.  Every
    other collaborator is as in [env]. *)
Definition restServer (log : gmap (string * N) FileHistory) (blobs : gmap string bytes)
    (env : Env) : Env :=
  {| GetRequest := λ url,
       match list_find (λ kv : string * N * FileHistory, downloadURL kv.1.1 kv.1.2 = url)
                       (map_to_list log) with
       | Some (_, (p, timestamp, _)) => response (Download log blobs p timestamp)
       | None =>
           if String.prefix "/api/v1/server/download/files?afterPath=" url
           then inr (failure_error NotFound)
           else GetRequest env url
       end;
     PostRequest := PostRequest env;
     Close := Close env;
     json_Marshal := json_Marshal env;
     UnmarshalRequestBody := UnmarshalRequestBody env;
     os_Create := os_Create env;
     file_Write := file_Write env;
     app_New := app_New env;
     StartRestServer := StartRestServer env;
     app_Run := app_Run env |}.

Lemma downloadURL_prefix (p : string) (timestamp : N) :
  String.prefix "/api/v1/server/download/files?afterPath=" (downloadURL p timestamp) = true.
Proof. unfold downloadURL. simpl. by destruct (p +:+ _). Qed.

Lemma restServer_download (log : gmap (string * N) FileHistory) (blobs : gmap string bytes)
    (env : Env) (p : string) (timestamp : N) :
  GetRequest (restServer log blobs env) (downloadURL p timestamp) =
  response (Download log blobs p timestamp).
Proof.
  cbn [GetRequest restServer].
  destruct (list_find _ _) as [[i [[p' t'] h]]|] eqn:Hfind.
  - apply list_find_Some in Hfind as (_ & Heq & _). cbn in Heq.
    by apply downloadURL_inj in Heq as [-> ->].
  - assert (Hnone : log !! (p, timestamp) = None).
    { apply eq_None_not_Some. intros [h Hh].
      apply list_find_None in Hfind. rewrite Forall_forall in Hfind.
      apply (Hfind (p, timestamp, h)); [|done]. by apply elem_of_map_to_list. }
    unfold Download, GetVersion. by rewrite Hnone, downloadURL_prefix.
Qed.

(** C2.  The download command, in front of an engine holding the history
    index [log] and the content store [blobs]: an invocation that passes the
    guard issues one request and no second one, the GET of the URL of
    exactly the path and the version it was given.  When no record matches
    that pair, whatever other versions of the path are recorded,
    [GetVersion] fails [NotFound], the command returns that failure as its
    error and neither creates nor writes a file.  When a record matches and
    its blob is stored, the blob written is that record's. *)
Theorem C2_download_version_exact_match
    (log : gmap (string * N) FileHistory) (blobs : gmap string bytes)
    (env : Env) (opts : list (string * FlagValue)) (g : Globals) :
  ParseFlags downloadFileCmd opts initial = Some g →
  path g ≠ "" → version g ≠ 0%N → target g ≠ "" →
  let run := Execute (restServer log blobs env)
                     {| words := ["download"; "file"]; options := opts |} in
  requests run.1 = [EGet (downloadURL (path g) (version g))] ∧
  (log !! (path g, version g) = None →
     GetVersion log (path g) (version g) = inr NotFound ∧
     run.2 = Some (failure_error NotFound) ∧
     created run.1 = [] ∧ written run.1 = []) ∧
  (∀ h blob,
     log !! (path g, version g) = Some h → blobs !! Hash h = Some blob →
     Close env = None → os_Create env (target g) = None →
     GetVersion log (path g) (version g) = inl h ∧
     written run.1 = [(target g, blob)]).
Proof.
  intros Hparse Hp Hv Ht run.
  destruct (download_invocation (restServer log blobs env) opts g
              Hparse Hp Hv Ht) as (Hreq & _ & Hwrite).
  split; [exact Hreq|]. split.
  - intros Hnone. split; [by unfold GetVersion; rewrite Hnone|].
    subst run. rewrite (Execute_found _ downloadFileCmd) by reflexivity.
    rewrite Hparse, (download_accepted _ g Hp Hv Ht). cbn zeta.
    rewrite restServer_download. unfold Download, GetVersion. rewrite Hnone. done.
  - intros h blob Hh Hblob Hclose Hcreate.
    split; [by unfold GetVersion; rewrite Hh|].
    apply (Hwrite blob); [|done..].
    rewrite restServer_download. unfold Download, GetVersion. by rewrite Hh, Hblob.
Qed.

End history.

(** * Package sync: the persistence adapter *)
Module sync.
Import history.

Section repository.

(** [*badger.DB], the handle of the key-value store: a library type. *)
Variable badger_DB : Type.

(** [type Repository struct { DB *badger.DB }] *)
Record Repository := { DB : badger_DB }.

(** [type RepositoryInterface interface {}]: the names of its methods. *)
Definition RepositoryInterface : list string := [].

(** [func NewSyncRepository(db *badger.DB) *Repository] *)
Definition NewSyncRepository (db : badger_DB) : Repository := {| DB := db |}.

Lemma NewSyncRepository_DB (db : badger_DB) : DB (NewSyncRepository db) = db.
Proof. reflexivity. Qed.

End repository.

(** Keys are byte strings: bytes are countable, so byte strings can key a
    finite map. *)
#[global] Instance byte_eq_dec : EqDecision Byte.byte := Byte.byte_eq_dec.

#[global] Program Instance byte_countable : Countable Byte.byte :=
  inj_countable Byte.to_N Byte.of_N _.
Next Obligation. apply Byte.of_to_N. Qed.

(** Modelled from the spec: the contract of the Persistence Adapter
    (section 4.1), whose operations no source file defines: get, put, delete
    and scan-by-prefix over opaque byte keys.  The store is the finite map
    from keys to values. *)
Definition Get (k : bytes) (s : gmap bytes bytes) : bytes + Failure :=
  match s !! k with
  | Some v => inl v
  | None => inr NotFound
  end.

(** Modelled from the spec: put, of the same contract. *)
Definition Put (k v : bytes) (s : gmap bytes bytes) : gmap bytes bytes := <[k := v]> s.

(** Modelled from the spec: delete, of the same contract. *)
Definition Delete (k : bytes) (s : gmap bytes bytes) : gmap bytes bytes := delete k s.

(** Modelled from the spec: scan-by-prefix, of the same contract: the
    entries whose key starts with the prefix. *)
Definition ScanPrefix (p : bytes) (s : gmap bytes bytes) : gmap bytes bytes :=
  filter (λ kv, p `prefix_of` kv.1) s.

(** Modelled from the spec: the operations a transaction contains, those
    that change the store. *)
Inductive Op :=
  | OpPut (k v : bytes)
  | OpDelete (k : bytes).

(** Modelled from the spec: the effect of one contained operation. *)
Definition apply_op (s : gmap bytes bytes) (o : Op) : gmap bytes bytes :=
  match o with
  | OpPut k v => Put k v s
  | OpDelete k => Delete k s
  end.

(** Modelled from the spec: the scoped transaction of the Persistence
    Adapter (section 4.1), which no source file defines.  The operations run
    in order on a working copy; [fault i] is the failure ([Conflict],
    [StorageUnavailable]) that strikes operation [i], or the commit when [i]
    is the number of operations.  The working copy replaces the store only
    when the commit is reached and succeeds. *)
Fixpoint run_ops (fault : nat → option Failure) (i : nat) (ops : list Op)
    (work : gmap bytes bytes) : gmap bytes bytes + Failure :=
  match fault i with
  | Some f => inr f
  | None =>
      match ops with
      | [] => inl work
      | o :: ops' => run_ops fault (S i) ops' (apply_op work o)
      end
  end.

(** Modelled from the spec: the scoped transaction as its caller sees it:
    the store afterwards, and the failure if it did not commit. *)
Definition Transaction (fault : nat → option Failure) (ops : list Op) (s : gmap bytes bytes)
    : gmap bytes bytes * option Failure :=
  match run_ops fault 0 ops s with
  | inl s' => (s', None)
  | inr f => (s, Some f)
  end.

Lemma run_ops_ok (fault : nat → option Failure) (i : nat) (ops : list Op) (work : gmap bytes bytes) :
  (∀ j, i ≤ j ≤ i + length ops → fault j = None) →
  run_ops fault i ops work = inl (foldl apply_op work ops).
Proof.
  revert i work. induction ops as [|o ops IH]; intros i work Hf; simpl.
  - rewrite Hf by (simpl; lia). done.
  - rewrite Hf by (simpl; lia). apply IH. intros j Hj. apply Hf. simpl. lia.
Qed.

Lemma run_ops_fault (fault : nat → option Failure) (i : nat) (ops : list Op)
    (work : gmap bytes bytes) (j : nat) (f : Failure) :
  i ≤ j ≤ i + length ops → fault j = Some f →
  ∃ f', run_ops fault i ops work = inr f'.
Proof.
  revert i work. induction ops as [|o ops IH]; intros i work Hj Hf; simpl in *.
  - replace i with j by lia. rewrite Hf. eauto.
  - destruct (fault i) as [f'|] eqn:Hi; [eauto|].
    apply IH; [|done]. destruct (decide (i = j)) as [->|]; [congruence|lia].
Qed.

(** C7.  The persistence adapter of the specification: over byte-string
    keys, a get after a put of the key returns the value put and a get after
    a delete of the key fails [NotFound], either leaving every other key as
    it was; scan-by-prefix holds exactly the entries of the store whose key
    starts with the prefix; and a transaction leaves the store either with
    all of its operations applied, when no failure strikes an operation or
    the commit, or exactly as it was, with the failure reported, however
    many operations ran before the failure. *)
Theorem C7_adapter_operations_and_atomic_transaction
    (s : gmap bytes bytes) (k k' v p : bytes) (fault : nat → option Failure) (ops : list Op) :
  Get k (Put k v s) = inl v ∧
  Get k (Delete k s) = inr NotFound ∧
  (k' ≠ k → Get k' (Put k v s) = Get k' s ∧ Get k' (Delete k s) = Get k' s) ∧
  (∀ x, ScanPrefix p s !! k = Some x ↔ p `prefix_of` k ∧ s !! k = Some x) ∧
  ((∀ j, j ≤ length ops → fault j = None) →
     Transaction fault ops s = (foldl apply_op s ops, None)) ∧
  (∀ j f, j ≤ length ops → fault j = Some f →
     ∃ f', Transaction fault ops s = (s, Some f')) ∧
  (Transaction fault ops s = (foldl apply_op s ops, None) ∨
   ∃ f, Transaction fault ops s = (s, Some f)).
Proof.
  unfold Get, Put, Delete. split_and!.
  - by rewrite lookup_insert_eq.
  - by rewrite lookup_delete_eq.
  - intros Hne. by rewrite lookup_insert_ne, lookup_delete_ne.
  - intros x. unfold ScanPrefix. rewrite map_lookup_filter_Some. simpl. tauto.
  - intros Hf. unfold Transaction. rewrite run_ops_ok; [done|]. intros j Hj. apply Hf. lia.
  - intros j f Hj Hf. unfold Transaction.
    destruct (run_ops_fault fault 0 ops s j f) as [f' ->]; [lia|done|eauto].
  - unfold Transaction.
    destruct (decide (Forall (λ j, fault j = None) (seq 0 (S (length ops))))) as [Hall|Hex].
    + left. rewrite run_ops_ok; [done|]. intros j Hj.
      rewrite Forall_forall in Hall. apply Hall, elem_of_seq. lia.
    + right. apply not_Forall_Exists in Hex; [|apply _].
      apply Exists_exists in Hex as (j & Hj & Hfj). apply elem_of_seq in Hj.
      destruct (fault j) as [f|] eqn:Hf; [|done].
      destruct (run_ops_fault fault 0 ops s j f) as [f' ->]; [lia|done|eauto].
Qed.

End sync.

(** * The theorems at work on concrete runs *)
Module runs.
Import main main_facts history sync.

(** [qis download file --path /docs/notes.txt --version 100 --target out.txt]
    against a server that answers two bytes. *)
Lemma C1_download_notes_at_100 :
  let run := Execute (agreeable [Byte.x68; Byte.x69])
    {| words := ["download"; "file"];
       options := [("path", StringVal "/docs/notes.txt"); ("version", Uint64Val 100);
                   ("target", StringVal "out.txt")] |} in
  requests run.1 =
    [EGet "/api/v1/server/download/files?afterPath=/docs/notes.txt&timestamp=100"] ∧
  created run.1 = ["out.txt"] ∧
  written run.1 = [("out.txt", [Byte.x68; Byte.x69])] ∧
  run.2 = None.
Proof.
  destruct (C1_download_get_and_verbatim_write (agreeable [Byte.x68; Byte.x69])
    [("path", StringVal "/docs/notes.txt"); ("version", Uint64Val 100);
     ("target", StringVal "out.txt")]
    {| all := false; id := ""; path := "/docs/notes.txt"; version := 100; target := "out.txt";
       addr := ""; port := ""; port3 := ""; password := "" |}
    eq_refl ltac:(discriminate) ltac:(discriminate) ltac:(discriminate))
    as (Hreq & _ & Hwrite).
  destruct (Hwrite [Byte.x68; Byte.x69] eq_refl eq_refl eq_refl) as (Hc & Hw & He).
  exact (conj Hreq (conj Hc (conj Hw He))).
Defined.

(** The history holds versions 100 and 102 of [/docs/notes.txt]; version
    101 is asked for. *)
Definition notesLog : gmap (string * N) FileHistory :=
  {[ ("/docs/notes.txt", 100%N) :=
       {| BeforePath := ""; AfterPath := "/docs/notes.txt"; Date := "2023-10-01";
          hist_UUID := "c-1"; Timestamp := 100; Hash := "h1" |};
     ("/docs/notes.txt", 102%N) :=
       {| BeforePath := ""; AfterPath := "/docs/notes.txt"; Date := "2023-10-02";
          hist_UUID := "c-1"; Timestamp := 102; Hash := "h2" |} ]}.

Definition notesBlobs : gmap string bytes :=
  {[ "h1" := [Byte.x68; Byte.x31]; "h2" := [Byte.x68; Byte.x32] ]}.

Lemma C2_download_notes_at_101_not_found :
  let run := Execute (restServer notesLog notesBlobs (agreeable []))
    {| words := ["download"; "file"];
       options := [("path", StringVal "/docs/notes.txt"); ("version", Uint64Val 101);
                   ("target", StringVal "out.txt")] |} in
  requests run.1 =
    [EGet (downloadURL "/docs/notes.txt" 101)] ∧
  run.2 = Some (failure_error NotFound) ∧
  created run.1 = [] ∧ written run.1 = [].
Proof.
  destruct (C2_download_version_exact_match notesLog notesBlobs (agreeable [])
    [("path", StringVal "/docs/notes.txt"); ("version", Uint64Val 101);
     ("target", StringVal "out.txt")]
    {| all := false; id := ""; path := "/docs/notes.txt"; version := 101; target := "out.txt";
       addr := ""; port := ""; port3 := ""; password := "" |}
    eq_refl ltac:(discriminate) ltac:(discriminate) ltac:(discriminate))
    as (Hreq & Hnone & _).
  destruct (Hnone ltac:(vm_compute; reflexivity)) as (_ & He & Hc & Hw).
  exact (conj Hreq (conj He (conj Hc Hw))).
Defined.

(** [qis show client], no option given. *)
Lemma C8_show_client_without_option :
  let inv := {| words := ["show"; "client"]; options := [] |} in
  ∃ req rest,
    request_with showClientCmd "" = [req] ∧
    (Execute (agreeable []) inv).1 =
      [ELog ["quics: "; "Please enter only one option"]; EHelp showClientCmd;
       ENewRestClient; req] ++ rest ∧
    requests (Execute (agreeable []) inv).1 = [req] ∧
    (Execute (agreeable []) inv).2 = None ∧ (Run (agreeable []) inv).2 = 0%Z.
Proof.
  destruct (C8_missing_option_still_requests (agreeable []) showClientCmd [] initial
              ltac:(in_commands) eq_refl eq_refl eq_refl)
    as (req & rest & Hreq & Ht & Hr & Hok).
  exists req, rest. refine (conj Hreq (conj Ht (conj Hr (Hok _ eq_refl)))).
  injection Hreq as <-. by exists [].
Defined.

(** [qis download file --path /docs/a --target out]: no version. *)
Lemma C9_download_without_version :
  let inv := {| words := ["download"; "file"];
                options := [("path", StringVal "/docs/a"); ("target", StringVal "out")] |} in
  Execute (agreeable []) inv =
    ([ELog ["quics: "; "Please enter both path and version"]; EHelp downloadFileCmd], None) ∧
  (Run (agreeable []) inv).2 = 0%Z ∧
  requests (Run (agreeable []) inv).1 = [] ∧
  created (Run (agreeable []) inv).1 = [].
Proof.
  destruct (C9_download_refused_is_success (agreeable [])
    [("path", StringVal "/docs/a"); ("target", StringVal "out")]
    {| all := false; id := ""; path := "/docs/a"; version := 0; target := "out";
       addr := ""; port := ""; port3 := ""; password := "" |}
    eq_refl (or_intror (or_introl eq_refl))) as (He & Hcode & Hr & Hc & _).
  exact (conj He (conj Hcode (conj Hr Hc))).
Defined.

(** [qis remove dir --id /docs] *)
Lemma C10_remove_dir_by_id :
  requests (Execute (agreeable [])
              {| words := ["remove"; "dir"]; options := [("id", StringVal "/docs")] |}).1 =
    [EPost "/api/v1/server/remove/directories?afterPath=" "application/json" None].
Proof.
  destruct (C10_id_flag_never_transmitted (agreeable []) removeDirCmd
              [("id", StringVal "/docs")] ltac:(in_commands)) as (_ & _ & Hparse & _).
  exact (proj2 (Hparse _ eq_refl)).
Defined.

End runs.

(** * Further properties of the commands *)
Module coverage.
Import main main_facts.

(** ** Runs built around one REST request *)

(** The error log line of the REST calls. *)
Definition errLog (err : error) : Event := ELog ["quics err: "; Error err].

(** The data handed to the decoder. *)
Definition decoded (t : list Event) : list bytes :=
  omap (λ e, match e with EUnmarshal d => Some d | _ => None end) t.

(** A run made of a prologue [pre], one request [req] and, when it is
    answered and the client closes, an epilogue [post] on the response, which
    decides the result. *)
Definition rest_run (env : Env) (pre : list Event) (req : Event)
    (post : bytes → list Event * option error) : list Event * option error :=
  match answer env req with
  | Some (inl response) =>
      match Close env with
      | Some err => (pre ++ [ENewRestClient; req; EClose; errLog err], Some err)
      | None => (pre ++ [ENewRestClient; req; EClose] ++ (post response).1, (post response).2)
      end
  | Some (inr err) => (pre ++ [ENewRestClient; req; errLog err], Some err)
  | None => ([], None)
  end.

Section rest_run.
Context (env : Env) (pre : list Event) (req : Event) (post : bytes → list Event * option error).
Hypothesis req_request : is_request req = true.
Hypothesis pre_quiet : requests pre = [].
Hypothesis pre_open : EClose ∉ pre.
Hypothesis post_quiet : ∀ r, requests (post r).1 = [].

Lemma answer_request : ∃ a, answer env req = Some a.
Proof using req_request. destruct req; try discriminate req_request; simpl; eauto. Qed.

Lemma rest_run_requests : requests (rest_run env pre req post).1 = [req].
Proof using req_request pre_quiet post_quiet.
  unfold rest_run. destruct answer_request as [[r|err] ->]; [destruct (Close env)|];
    cbn [fst]; unfold requests in *; rewrite !List.filter_app, ?pre_quiet, ?post_quiet;
    cbn [List.filter is_request app]; by rewrite req_request.
Qed.

Lemma rest_run_success :
  (rest_run env pre req post).2 = None ↔
  ∃ r, answer env req = Some (inl r) ∧ Close env = None ∧ (post r).2 = None.
Proof using req_request.
  unfold rest_run. destruct answer_request as [[r|err] ->]; [destruct (Close env) eqn:Hc|];
    cbn [snd]; split; try done.
  - by intros (r' & _ & [=] & _).
  - intros H. eauto.
  - by intros (r' & [= <-] & _ & H).
  - by intros (r' & [=] & _).
Qed.

Lemma rest_run_request_fails (err : error) :
  answer env req = Some (inr err) →
  (rest_run env pre req post).2 = Some err ∧
  (EClose ∉ (rest_run env pre req post).1) ∧
  last (rest_run env pre req post).1 = Some (errLog err).
Proof using req_request pre_open.
  intros Ha. unfold rest_run. rewrite Ha. cbn [fst snd]. split_and!; [done| |].
  - rewrite not_elem_of_app. split; [done|].
    destruct req; try discriminate req_request; not_in_trace.
  - by rewrite last_app.
Qed.

Lemma rest_run_close_fails (err : error) :
  answered env req → Close env = Some err →
  (rest_run env pre req post).2 = Some err ∧
  last (rest_run env pre req post).1 = Some (errLog err).
Proof.
  intros [r Ha] Hc. unfold rest_run. rewrite Ha, Hc. cbn [fst snd]. by rewrite last_app.
Qed.

End rest_run.

(** Nothing more happens after the close. *)
Definition done_ : bytes → list Event * option error := λ _, ([], None).

(** The epilogue of the show commands: the response goes to the decoder
    (and the loop over the still empty slice prints nothing). *)
Definition decode_ : bytes → list Event * option error := λ r, ([EUnmarshal r], None).

(** The epilogue of the download command: create the target, write the
    response, close the file. *)
Definition save (env : Env) (name : string) (response : bytes) : list Event * option error :=
  match os_Create env name with
  | Some err => ([ECreate name], Some err)
  | None =>
      ([ECreate name; EWrite name response; EFileClose name],
       match file_Write env name response with
       | (_, Some err) => Some err
       | (n, None) => if bool_decide (n = Z.of_nat (length response)) then None
                      else Some io_ErrShortWrite
       end)
  end.

Lemma validation_quiet (c : Command) (g : Globals) : requests (validation c g) = [].
Proof. unfold validation. by destruct (_ && _). Qed.

Lemma validation_open (c : Command) (g : Globals) : EClose ∉ validation c g.
Proof. unfold validation. destruct (_ && _); not_in_trace. Qed.

Lemma show_rest_run (env : Env) (c : Command) (g : Globals) :
  c ∈ show_commands →
  ∃ req, request_with c (identifier c g) = [req] ∧ is_request req = true ∧
         run_command c env g = rest_run env (validation c g) req decode_.
Proof.
  intros Hc. destruct (show_shape env c g Hc) as (req & Hreq & Hr & ->).
  exists req. split_and!; [done..|]. unfold rest_run, decode_, errLog.
  destruct (answer env req) as [[r|err]|]; [destruct (Close env)|..]; reflexivity.
Qed.

Lemma remove_rest_run (env : Env) (c : Command) (g : Globals) :
  c ∈ remove_commands →
  ∃ req, request_with c (identifier c g) = [req] ∧ is_request req = true ∧
         run_command c env g = rest_run env (validation c g) req done_.
Proof.
  intros Hc. destruct (remove_shape env c g Hc) as (req & Hreq & Hr & ->).
  exists req. split_and!; [done..|]. unfold rest_run, done_, errLog.
  destruct (answer env req) as [[r|err]|]; [destruct (Close env)|..];
    cbn [fst snd]; rewrite ?app_nil_r; reflexivity.
Qed.

Lemma show_remove_rest_run (env : Env) (c : Command) (g : Globals) :
  c ∈ show_commands ++ remove_commands →
  ∃ req post, request_with c (identifier c g) = [req] ∧ is_request req = true ∧
              (∀ r, requests (post r).1 = [] ∧ (post r).2 = None) ∧
              run_command c env g = rest_run env (validation c g) req post.
Proof.
  intros Hc. apply elem_of_app in Hc as [Hc|Hc].
  - destruct (show_rest_run env c g Hc) as (req & ? & ? & ?). by exists req, decode_.
  - destruct (remove_rest_run env c g Hc) as (req & ? & ? & ?). by exists req, done_.
Qed.

(** The commands that only post to a fixed URL. *)
Definition post_commands : list Command := [stopServerCmd; listenCmd; passwordResetCmd].

Definition post_url (c : Command) : string :=
  match c with
  | stopServerCmd => "/api/v1/server/stop"
  | listenCmd => "/api/v1/server/listen"
  | passwordResetCmd => "/api/v1/server/password/reset"
  | _ => ""
  end.

Lemma postAndClose_rest_run (env : Env) (url : string) (body : option bytes) :
  runE (postAndClose env url body) =
  rest_run env [] (EPost url "application/json" body) done_.
Proof.
  rewrite postAndClose_eq. unfold rest_run, done_, errLog. cbn [answer].
  destruct (PostRequest env _ _ _); [destruct (Close env)|]; reflexivity.
Qed.

Lemma post_rest_run (env : Env) (c : Command) (g : Globals) :
  c ∈ post_commands →
  run_command c env g = rest_run env [] (EPost (post_url c) "application/json" None) done_.
Proof.
  unfold post_commands. rewrite !elem_of_cons, elem_of_nil.
  intros [->|[->|[->|[]]]]; apply postAndClose_rest_run.
Qed.

Lemma download_rest_run (env : Env) (g : Globals) :
  path g ≠ "" → version g ≠ 0%N → target g ≠ "" →
  run_command downloadFileCmd env g =
  rest_run env [] (EGet (downloadURL (path g) (version g))) (save env (target g)).
Proof.
  intros Hp Hv Ht. rewrite (download_accepted env g Hp Hv Ht). cbn zeta.
  unfold rest_run, save, errLog. cbn [answer].
  destruct (GetRequest env _); [destruct (Close env); [|destruct (os_Create env _)]|];
    reflexivity.
Qed.

Lemma save_quiet (env : Env) (name : string) (r : bytes) : requests (save env name r).1 = [].
Proof. unfold save. by destruct (os_Create env name). Qed.

Lemma password_set_rest_run (env : Env) (g : Globals) (body : bytes) :
  password g ≠ "" → json_Marshal env {| Password := password g |} = inl body →
  run_command passwordSetCmd env g =
  rest_run env [EMarshal {| Password := password g |}]
    (EPost "/api/v1/server/password/set" "application/json" (Some body)) done_.
Proof.
  intros Hpw Hbody. rewrite password_set_shape, bool_decide_eq_false_2 by done.
  cbn zeta. rewrite Hbody, postAndClose_rest_run.
  unfold rest_run. cbn [answer].
  destruct (PostRequest env _ _ _); [destruct (Close env)|]; reflexivity.
Qed.

Lemma rest_run_result_pre (env : Env) (pre pre' : list Event) (req : Event)
    (post : bytes → list Event * option error) :
  (rest_run env pre req post).2 = (rest_run env pre' req post).2.
Proof.
  unfold rest_run. by destruct (answer env req) as [[r|err]|]; [destruct (Close env)|..].
Qed.

(** Every run either issues no request or is built around one. *)
Lemma run_command_classify (env : Env) (c : Command) (g : Globals) :
  requests (run_command c env g).1 = [] ∨
  ∃ pre req post,
    is_request req = true ∧ requests pre = [] ∧ (EClose ∉ pre) ∧
    (∀ r, requests (post r).1 = []) ∧
    run_command c env g = rest_run env pre req post.
Proof.
  assert (Hsr : c ∈ show_commands ++ remove_commands → ∃ pre req post,
    is_request req = true ∧ requests pre = [] ∧ (EClose ∉ pre) ∧
    (∀ r, requests (post r).1 = []) ∧ run_command c env g = rest_run env pre req post).
  { intros Hc. destruct (show_remove_rest_run env c g Hc) as (req & post & _ & Hr & Hpost & ->).
    exists (validation c g), req, post.
    split_and!; [done|apply validation_quiet|apply validation_open|intros r; apply Hpost|done]. }
  assert (Hpost : c ∈ post_commands → ∃ pre req post,
    is_request req = true ∧ requests pre = [] ∧ (EClose ∉ pre) ∧
    (∀ r, requests (post r).1 = []) ∧ run_command c env g = rest_run env pre req post).
  { intros Hc. rewrite (post_rest_run env c g Hc).
    exists [], (EPost (post_url c) "application/json" None), done_.
    split_and!; [done|done|apply not_elem_of_nil|done|done]. }
  destruct c;
    try (right; apply Hsr; solve [in_commands]);
    try (right; apply Hpost; unfold post_commands; rewrite ?elem_of_cons; solve [auto 12]);
    try (left; reflexivity).
  - left. unfold run_command. cbn.
    destruct (app_New env _ _ _); [reflexivity|]. by destruct (StartRestServer env).
  - left. unfold run_command. cbn.
    destruct (app_New env _ _ _); [reflexivity|]. by destruct (app_Run env).
  - destruct (decide (password g = "")) as [Hpw|Hpw].
    { left. by rewrite password_set_shape, bool_decide_eq_true_2. }
    destruct (json_Marshal env {| Password := password g |}) as [body|err] eqn:Hbody.
    + right. rewrite (password_set_rest_run env g body Hpw Hbody).
      exists [EMarshal {| Password := password g |}],
             (EPost "/api/v1/server/password/set" "application/json" (Some body)), done_.
      split_and!; [done|done|not_in_trace|done|done].
    + left. rewrite password_set_shape, bool_decide_eq_false_2 by done. cbn zeta.
      by rewrite Hbody.
  - destruct (decide (path g = "")) as [Hp|Hp];
      [left; by rewrite download_refused by auto|].
    destruct (decide (version g = 0%N)) as [Hv|Hv];
      [left; by rewrite download_refused by auto|].
    destruct (decide (target g = "")) as [Ht|Ht];
      [left; by rewrite download_refused by auto|].
    right. rewrite (download_rest_run env g Hp Hv Ht).
    exists [], (EGet (downloadURL (path g) (version g))), (save env (target g)).
    split_and!; [done|done|apply not_elem_of_nil|apply save_quiet|done].
Qed.

(** ** The REST discipline of all commands *)

(** X7.  Whatever the command and the state of the flag variables, a run
    issues at most one request; and when a request it issues fails, that is
    the run's only request, the error is the result of the command, the last
    thing the run does is log it, and the REST client is never closed. *)
Theorem X7_failed_request_is_returned_client_left_open
    (env : Env) (c : Command) (g : Globals) :
  length (requests (run_command c env g).1) ≤ 1 ∧
  ∀ req err,
    req ∈ requests (run_command c env g).1 →
    answer env req = Some (inr err) →
    requests (run_command c env g).1 = [req] ∧
    (run_command c env g).2 = Some err ∧
    (EClose ∉ (run_command c env g).1) ∧
    last (run_command c env g).1 = Some (errLog err).
Proof.
  destruct (run_command_classify env c g)
    as [Hnone|(pre & req' & post & Hr & Hpre & Hopen & Hpost & Hrun)].
  { rewrite Hnone. split; [simpl; lia|]. intros req err Hin. by apply elem_of_nil in Hin. }
  rewrite Hrun. rewrite (rest_run_requests env pre req' post Hr Hpre Hpost).
  split; [simpl; lia|]. intros req err Hin Ha.
  apply list_elem_of_singleton in Hin as ->.
  destruct (rest_run_request_fails env pre req' post Hr Hopen err Ha) as (? & ? & ?).
  by split_and!.
Qed.

(** X1.  stop, listen and password reset read no flag variable: each run
    issues the one POST of the command's URL, with no body, and the command
    succeeds exactly when that request is answered and the client closes. *)
Theorem X1_plain_post_commands (env : Env) (c : Command) (g : Globals) :
  c ∈ post_commands →
  let req := EPost (post_url c) "application/json" None in
  requests (run_command c env g).1 = [req] ∧
  ((run_command c env g).2 = None ↔ answered env req ∧ Close env = None) ∧
  (∀ g', run_command c env g' = run_command c env g).
Proof.
  intros Hc req. split_and!.
  - rewrite (post_rest_run env c g Hc). by apply rest_run_requests.
  - rewrite (post_rest_run env c g Hc), rest_run_success by done. unfold answered, done_.
    split; [intros (r & ? & ? & _); eauto|intros [[r ?] ?]; eauto].
  - intros g'. by rewrite !(post_rest_run env c _ Hc).
Qed.

(** ** The show and remove commands, further *)

Lemma validateOptionByCommand_eq (g : Globals) (c : Command) :
  validateOptionByCommand g c = (validation c g, inl tt).
Proof. unfold validateOptionByCommand, validation. by destruct (_ && _). Qed.

Lemma rest_run_trace_pre (env : Env) (pre : list Event) (req : Event)
    (post : bytes → list Event * option error) :
  is_request req = true →
  (rest_run env pre req post).1 = pre ++ (rest_run env [] req post).1.
Proof.
  intros Hr. unfold rest_run. destruct (answer_request env req Hr) as [[r|err] ->];
    [destruct (Close env)|]; reflexivity.
Qed.

(** X5.  For every show and remove subcommand, [--all] reaches neither the
    request nor the result, and changes at most whether the helper logs:
    every run is what [validateOptionByCommand] emits followed by the run
    with [--all], and nothing at all changes once an identifier is given.
    The helper emits nothing when [--all] is set (also together with an
    identifier) or when an identifier is given, and its log line and the help
    when neither is. *)
Theorem X5_all_option_never_reaches_the_request
    (env : Env) (c : Command) (g : Globals) (b : bool) :
  c ∈ show_commands ++ remove_commands →
  requests (run_command c env (with_all b g)).1 = requests (run_command c env g).1 ∧
  (run_command c env (with_all b g)).2 = (run_command c env g).2 ∧
  (id g ≠ "" → run_command c env (with_all b g) = run_command c env g) ∧
  (run_command c env g).1 =
    (validateOptionByCommand g c).1 ++ (run_command c env (with_all true g)).1 ∧
  validateOptionByCommand (with_all true g) c = ([], inl tt) ∧
  (id g ≠ "" → validateOptionByCommand g c = ([], inl tt)) ∧
  (all g = false → id g = "" →
   validateOptionByCommand g c =
     ([ELog ["quics: "; "Please enter only one option"]; EHelp c], inl tt)).
Proof.
  intros Hc.
  assert (Hid : ∀ b', identifier c (with_all b' g) = identifier c g) by by destruct c.
  assert (H : ∃ req post, is_request req = true ∧ (∀ r, requests (post r).1 = []) ∧
    ∀ b', run_command c env (with_all b' g) =
            rest_run env (validation c (with_all b' g)) req post ∧
          run_command c env g = rest_run env (validation c g) req post).
  { apply elem_of_app in Hc as [Hc|Hc].
    - destruct (show_rest_run env c g Hc) as (req & Hreq & Hr & Hrun).
      exists req, decode_. split_and!; [done..|]. intros b'. split; [|done].
      destruct (show_rest_run env c (with_all b' g) Hc) as (req' & Hreq' & _ & Hrun').
      rewrite Hid, Hreq in Hreq'. by injection Hreq' as <-.
    - destruct (remove_rest_run env c g Hc) as (req & Hreq & Hr & Hrun).
      exists req, done_. split_and!; [done..|]. intros b'. split; [|done].
      destruct (remove_rest_run env c (with_all b' g) Hc) as (req' & Hreq' & _ & Hrun').
      rewrite Hid, Hreq in Hreq'. by injection Hreq' as <-. }
  destruct H as (req & post & Hr & Hpost & Hrun).
  destruct (Hrun b) as [Hb Hg]. destruct (Hrun true) as [Ht _].
  rewrite Hb, Ht, Hg, !validateOptionByCommand_eq. split_and!.
  - rewrite !rest_run_requests; auto using validation_quiet.
  - apply rest_run_result_pre.
  - intros Hne. unfold validation. cbn [id with_all].
    by rewrite (bool_decide_eq_false_2 _ Hne), !andb_false_r.
  - cbn [fst]. by apply rest_run_trace_pre.
  - reflexivity.
  - intros Hne. unfold validation. by rewrite (bool_decide_eq_false_2 _ Hne), andb_false_r.
  - intros Hall Hidg. unfold validation. by rewrite Hall, Hidg.
Qed.

(** X6.  No show subcommand prints a line, whatever the server returns and
    whatever the decoder does; the decoder is called only when the request
    was answered and the client closed, and then on exactly the bytes of the
    response. *)
Theorem X6_show_decodes_the_response_and_prints_nothing
    (env : Env) (c : Command) (g : Globals) :
  c ∈ show_commands →
  ∃ req, request_with c (identifier c g) = [req] ∧
    printed (run_command c env g).1 = [] ∧
    decoded (run_command c env g).1 =
      match answer env req, Close env with
      | Some (inl response), None => [response]
      | _, _ => []
      end.
Proof.
  intros Hc. destruct (show_rest_run env c g Hc) as (req & Hreq & Hr & ->).
  exists req. split; [done|]. unfold rest_run, validation, decode_.
  destruct req; try discriminate Hr; cbn [answer];
    destruct (_ && _);
    (match goal with |- context [match ?x with inl _ => _ | inr _ => _ end] =>
       destruct x end; [destruct (Close env)|]); by split.
Qed.

(** X8.  An invocation of a show or remove subcommand whose options are
    accepted exits with code 0 exactly when its request is answered and the
    client closes, whether or not the validation helper complained; otherwise
    it exits with code 1. *)
Theorem X8_show_remove_exit_code
    (env : Env) (c : Command) (opts : list (string * FlagValue)) (g : Globals) :
  c ∈ show_commands ++ remove_commands →
  ParseFlags c opts initial = Some g →
  let inv := {| words := commandWords c; options := opts |} in
  ∃ req, request_with c (identifier c g) = [req] ∧
    ((Run env inv).2 = 0%Z ↔ answered env req ∧ Close env = None) ∧
    ((Run env inv).2 = 0%Z ∨ (Run env inv).2 = 1%Z).
Proof.
  intros Hc Hparse inv. unfold inv.
  rewrite Run_code, (show_remove_Execute env c opts Hc), Hparse.
  destruct (show_remove_rest_run env c g Hc) as (req & post & Hreq & Hr & Hpost & ->).
  exists req. split; [done|].
  pose proof (rest_run_success env (validation c g) req post Hr) as Hs.
  destruct (rest_run env (validation c g) req post).2 as [e|]; split; auto.
  - split; [done|]. intros [[r Ha] Hcl].
    assert (Some e = None) as [=]. apply Hs. exists r. split_and!; [done..|apply Hpost].
  - split; [|done]. intros _. destruct (proj1 Hs eq_refl) as (r & Ha & Hcl & _).
    split; [by exists r|done].
Qed.

(** ** The download command, further *)

(** X9.  The download command past its guard touches the file system only
    once the response is in and the client closed: otherwise no file is
    created or written.  When [os.Create] fails its error is returned with
    nothing written and nothing logged, the create being the last thing the
    run does.  When it succeeds the file is closed at the end of the run
    whatever the write returns, and an error of the write is the result even
    if the count written is the full length. *)
Theorem X9_download_file_handling (env : Env) (g : Globals) :
  path g ≠ "" → version g ≠ 0%N → target g ≠ "" →
  let run := run_command downloadFileCmd env g in
  let url := downloadURL (path g) (version g) in
  (¬ (answered env (EGet url) ∧ Close env = None) →
     created run.1 = [] ∧ written run.1 = []) ∧
  (∀ response err,
     GetRequest env url = inl response → Close env = None →
     os_Create env (target g) = Some err →
     run.2 = Some err ∧ written run.1 = [] ∧ last run.1 = Some (ECreate (target g))) ∧
  (∀ response,
     GetRequest env url = inl response → Close env = None →
     os_Create env (target g) = None →
     last run.1 = Some (EFileClose (target g)) ∧
     ∀ n err, file_Write env (target g) response = (n, Some err) → run.2 = Some err).
Proof.
  intros Hp Hv Ht run url. subst run. rewrite (download_rest_run env g Hp Hv Ht).
  fold url. unfold rest_run, save, answered. cbn [answer]. split_and!.
  - intros Hno. destruct (GetRequest env url) as [r|e]; [|done].
    destruct (Close env); [done|]. destruct Hno. eauto.
  - intros response err -> -> ->. done.
  - intros response -> -> ->. split; [done|]. by intros n err ->.
Qed.

(** X10.  The download command past its guard returns [nil] exactly when
    the request is answered, the client closes, the target is created and the
    write reports the full length of the response and no error. *)
Theorem X10_download_succeeds_only_on_full_write (env : Env) (g : Globals) :
  path g ≠ "" → version g ≠ 0%N → target g ≠ "" →
  let url := downloadURL (path g) (version g) in
  (run_command downloadFileCmd env g).2 = None ↔
  ∃ response,
    GetRequest env url = inl response ∧ Close env = None ∧
    os_Create env (target g) = None ∧
    file_Write env (target g) response = (Z.of_nat (length response), None).
Proof.
  intros Hp Hv Ht url. rewrite (download_rest_run env g Hp Hv Ht). fold url.
  rewrite rest_run_success by done. cbn [answer]. unfold save. split.
  - intros (r & [= Hr] & Hc & Hs). exists r. split_and!; [done..| |].
    + by destruct (os_Create env (target g)).
    + destruct (os_Create env (target g)); [done|]. cbn [snd] in Hs.
      destruct (file_Write env (target g) r) as [n [e|]]; [done|].
      case_bool_decide; [by subst|done].
  - intros (r & Hr & Hc & Ho & Hw). exists r. rewrite Hr, Ho, Hw. split_and!; [done..|].
    cbn [snd]. by rewrite bool_decide_eq_true_2.
Qed.

(** ** The password set command, further *)

(** X3.  [password set] invoked without a password (no [--pw], or an
    empty one) only logs and prints the help: nothing is marshalled, no
    request is issued, and the exit code is 0. *)
Theorem X3_password_set_without_password
    (env : Env) (opts : list (string * FlagValue)) (g : Globals) :
  ParseFlags passwordSetCmd opts initial = Some g →
  password g = "" →
  Run env {| words := ["password"; "set"]; options := opts |} =
    ([ELog ["quics: "; "Please enter password"]; EHelp passwordSetCmd], 0%Z).
Proof.
  intros Hparse Hpw. unfold Run.
  rewrite (Execute_found env passwordSetCmd) by reflexivity.
  by rewrite Hparse, password_set_shape, bool_decide_eq_true_2.
Qed.

(** X4.  [password set] with a password: when marshalling fails, the error
    is logged and returned and no REST client is opened, no request issued;
    the command returns [nil] exactly when the record marshals, the POST of
    the marshalled body is answered and the client closes. *)
Theorem X4_password_set_outcomes (env : Env) (g : Globals) :
  password g ≠ "" →
  let server := {| Password := password g |} in
  let run := run_command passwordSetCmd env g in
  (∀ err, json_Marshal env server = inr err →
     run = ([EMarshal server; errLog err], Some err)) ∧
  (run.2 = None ↔
   ∃ body, json_Marshal env server = inl body ∧
           answered env (EPost "/api/v1/server/password/set" "application/json" (Some body)) ∧
           Close env = None).
Proof.
  intros Hpw server run. subst run. split.
  - intros err Herr. rewrite password_set_shape, bool_decide_eq_false_2 by done.
    cbn zeta. fold server. by rewrite Herr.
  - destruct (json_Marshal env server) as [body|err] eqn:Hbody.
    + rewrite (password_set_rest_run env g body Hpw Hbody), rest_run_success by done.
      unfold answered, done_. split.
      * intros (r & ? & ? & _). exists body. eauto.
      * intros (body' & [= <-] & [r ?] & ?). eauto.
    + rewrite password_set_shape, bool_decide_eq_false_2 by done.
      cbn zeta. fold server. rewrite Hbody. split; [done|]. by intros (? & [=] & _).
Qed.

(** ** The commands that run the server *)

Definition server_commands : list Command := [startServerCmd; runCmd].

(** What each of them calls on the application once it is built. *)
Definition serve (env : Env) (c : Command) : option error :=
  match c with
  | startServerCmd => StartRestServer env
  | _ => app_Run env
  end.

Definition serveEvent (c : Command) : Event :=
  match c with
  | startServerCmd => EStartRestServer
  | _ => EAppRun
  end.

(** The lines logged. *)
Definition logged (t : list Event) : list (list string) :=
  omap (λ e, match e with ELog l => Some l | _ => None end) t.

(** X2.  start and run build the application from exactly the values of
    [--addr], [--port] and [--port3] (empty when not given), then start the
    REST server (for start) or run the application (for run) only if the
    build succeeded; the first error of the two calls is the result, returned
    without a log line; neither command issues a REST request. *)
Theorem X2_start_and_run_build_then_serve
    (env : Env) (c : Command) (opts : list (string * FlagValue)) (g : Globals) :
  c ∈ server_commands →
  ParseFlags c opts initial = Some g →
  let run := Execute env {| words := commandWords c; options := opts |} in
  run.1 = EAppNew (addr g) (port g) (port3 g) ::
          match app_New env (addr g) (port g) (port3 g) with
          | Some _ => []
          | None => [serveEvent c]
          end ∧
  run.2 = match app_New env (addr g) (port g) (port3 g) with
          | Some err => Some err
          | None => serve env c
          end ∧
  requests run.1 = [] ∧ logged run.1 = [] ∧
  (∀ v, v ∉ (flag_var <$> Flags c) → get_var v g = get_var v initial).
Proof.
  intros Hc Hparse run. subst run.
  rewrite (Execute_found env c _ opts (Find_commandWords c)), Hparse.
  assert (Hframe : ∀ v, v ∉ (flag_var <$> Flags c) → get_var v g = get_var v initial)
    by (intros v Hv; by apply (ParseFlags_frame c opts)).
  unfold server_commands in Hc. rewrite !elem_of_cons, elem_of_nil in Hc.
  destruct Hc as [->|[->|[]]]; unfold run_command; cbn;
    (destruct (app_New env _ _ _); [by split_and!|]).
  - by destruct (StartRestServer env).
  - by destruct (app_Run env).
Qed.

(** ** The command line *)

Lemma ParseFlags_unknown (c : Command) (opts : list (string * FlagValue)) (g : Globals)
    (name : string) (x : FlagValue) :
  (name, x) ∈ opts → lookup_flag c name = None → ParseFlags c opts g = None.
Proof.
  intros Hin Hnone. revert g. induction opts as [|[n y] opts IH]; intros g.
  - by apply elem_of_nil in Hin.
  - apply elem_of_cons in Hin as [[= <- <-]|Hin]; simpl.
    + by rewrite Hnone.
    + destruct (lookup_flag c n); [|done]. simpl.
      destruct (set_var _ y g); [|done]. simpl. by apply IH.
Qed.

(** X11.  An option that is not a flag of the command selected, by long
    name or by shorthand (cobra's own [--help], [-h] apart), makes the
    invocation fail before the command runs: exit code 1 and none of the
    program's actions, wherever the option stands among the others. *)
Theorem X11_unknown_option_stops_the_run
    (env : Env) (c : Command) (opts : list (string * FlagValue)) (name : string) (x : FlagValue) :
  (name, x) ∈ opts →
  lookup_flag c name = None →
  name ≠ "help" → name ≠ "h" →
  Run env {| words := commandWords c; options := opts |} = ([], 1%Z).
Proof.
  intros Hin Hnone _ _. unfold Run.
  rewrite (Execute_found env c _ opts (Find_commandWords c)).
  by rewrite (ParseFlags_unknown c opts initial name x Hin Hnone).
Qed.



End coverage.

(** * The further properties at work on concrete runs *)
Module coverage_runs.
Import main main_facts coverage.

(** A server that cannot be reached. *)
Definition unreachable : Env :=
  {| GetRequest := λ _, inr (Err "connection refused");
     PostRequest := λ _ _ _, inr (Err "connection refused");
     Close := None;
     json_Marshal := json_Marshal (agreeable []);
     UnmarshalRequestBody := λ _ _ _ _, None;
     os_Create := λ _, None;
     file_Write := λ _ d, (Z.of_nat (length d), None);
     app_New := λ _ _ _, None;
     StartRestServer := None;
     app_Run := None |}.

(** A server that answers [reply], in front of a disk on which every
    write fails after the whole data is counted. *)
Definition failing_disk (reply : bytes) : Env :=
  {| GetRequest := λ _, inl reply;
     PostRequest := λ _ _ _, inl [];
     Close := None;
     json_Marshal := json_Marshal (agreeable []);
     UnmarshalRequestBody := λ _ _ _ _, None;
     os_Create := λ _, None;
     file_Write := λ _ d, (Z.of_nat (length d), Some (Err "input/output error"));
     app_New := λ _ _ _, None;
     StartRestServer := None;
     app_Run := None |}.

Definition notes_at_100 : Globals :=
  {| all := false; id := ""; path := "/docs/notes.txt"; version := 100; target := "out.txt";
     addr := ""; port := ""; port3 := ""; password := "" |}.

(** [qis stop] against an unreachable server. *)
Lemma X7_stop_unreachable :
  length (requests (run_command stopServerCmd unreachable initial).1) ≤ 1 ∧
  (run_command stopServerCmd unreachable initial).2 = Some (Err "connection refused") ∧
  last (run_command stopServerCmd unreachable initial).1 =
    Some (errLog (Err "connection refused")).
Proof.
  destruct (X7_failed_request_is_returned_client_left_open unreachable stopServerCmd initial)
    as (Hlen & H).
  destruct (H (EPost "/api/v1/server/stop" "application/json" None) (Err "connection refused")
              ltac:(cbv; constructor) eq_refl) as (_ & He & _ & Hl).
  exact (conj Hlen (conj He Hl)).
Defined.

(** [qis listen] *)
Lemma X1_listen :
  requests (run_command listenCmd (agreeable []) initial).1 =
    [EPost "/api/v1/server/listen" "application/json" None] ∧
  (run_command listenCmd (agreeable []) initial).2 = None.
Proof.
  destruct (X1_plain_post_commands (agreeable []) listenCmd initial
              ltac:(unfold post_commands; rewrite ?elem_of_cons; auto)) as (Hr & Hs & _).
  refine (conj Hr (proj2 Hs (conj _ eq_refl))). by exists [].
Defined.

(** [qis start --addr 0.0.0.0 --port 6120] *)
Lemma X2_start_with_address :
  Execute (agreeable [])
    {| words := ["start"];
       options := [("addr", StringVal "0.0.0.0"); ("port", StringVal "6120")] |} =
  ([EAppNew "0.0.0.0" "6120" ""; EStartRestServer], None).
Proof.
  destruct (X2_start_and_run_build_then_serve (agreeable []) startServerCmd
    [("addr", StringVal "0.0.0.0"); ("port", StringVal "6120")]
    {| all := false; id := ""; path := ""; version := 0; target := "";
       addr := "0.0.0.0"; port := "6120"; port3 := ""; password := "" |}
    ltac:(unfold server_commands; rewrite ?elem_of_cons; auto) eq_refl) as (Ht & He & _).
  exact (f_equal2 pair Ht He).
Defined.

(** [qis password set], no password given. *)
Lemma X3_password_set_alone :
  Run (agreeable []) {| words := ["password"; "set"]; options := [] |} =
    ([ELog ["quics: "; "Please enter password"]; EHelp passwordSetCmd], 0%Z).
Proof. exact (X3_password_set_without_password (agreeable []) [] initial eq_refl eq_refl). Defined.

(** [qis password set --pw s3cret] against an unreachable server. *)
Lemma X4_password_set_unreachable :
  (run_command passwordSetCmd unreachable (with_password "s3cret" initial)).2 ≠ None ∧
  (run_command passwordSetCmd (agreeable []) (with_password "s3cret" initial)).2 = None.
Proof.
  split.
  - intros H.
    destruct (proj1 (proj2 (X4_password_set_outcomes unreachable
                (with_password "s3cret" initial) ltac:(discriminate))) H)
      as (body & _ & [r Hr] & _).
    discriminate Hr.
  - apply (proj2 (X4_password_set_outcomes (agreeable [])
             (with_password "s3cret" initial) ltac:(discriminate))).
    eexists. split; [reflexivity|]. split; [by exists []|reflexivity].
Defined.

(** [qis remove client --all --id c-1] *)
Lemma X5_remove_client_all_and_id :
  let g := {| all := false; id := "c-1"; path := ""; version := 0; target := "";
              addr := ""; port := ""; port3 := ""; password := "" |} in
  run_command removeClientCmd (agreeable []) (with_all true g) =
    run_command removeClientCmd (agreeable []) g ∧
  requests (run_command removeClientCmd (agreeable []) (with_all true g)).1 =
    requests (run_command removeClientCmd (agreeable []) g).1 ∧
  validateOptionByCommand (with_all true g) removeClientCmd = ([], inl tt).
Proof.
  destruct (X5_all_option_never_reaches_the_request (agreeable []) removeClientCmd
    {| all := false; id := "c-1"; path := ""; version := 0; target := "";
       addr := ""; port := ""; port3 := ""; password := "" |} true
    ltac:(in_commands)) as (Hr & _ & Hsame & _ & Hsilent & _).
  exact (conj (Hsame ltac:(discriminate)) (conj Hr Hsilent)).
Defined.

(** [qis show history --all] against a server answering two bytes. *)
Lemma X6_show_history :
  ∃ req, request_with showHistoryCmd "" = [req] ∧
    printed (run_command showHistoryCmd (agreeable [Byte.x5b; Byte.x5d]) (with_all true initial)).1
      = [] ∧
    decoded (run_command showHistoryCmd (agreeable [Byte.x5b; Byte.x5d]) (with_all true initial)).1
      = match answer (agreeable [Byte.x5b; Byte.x5d]) req, Close (agreeable [Byte.x5b; Byte.x5d])
        with
        | Some (inl response), None => [response]
        | _, _ => []
        end.
Proof.
  exact (X6_show_decodes_the_response_and_prints_nothing (agreeable [Byte.x5b; Byte.x5d])
           showHistoryCmd (with_all true initial) ltac:(in_commands)).
Defined.

(** [qis remove file --all] against an unreachable server. *)
Lemma X8_remove_file_unreachable :
  ∃ req, request_with removeFileCmd "" = [req] ∧
    ((Run unreachable {| words := ["remove"; "file"]; options := [("all", BoolVal true)] |}).2
       = 0%Z ↔ answered unreachable req ∧ Close unreachable = None) ∧
    ((Run unreachable {| words := ["remove"; "file"]; options := [("all", BoolVal true)] |}).2
       = 0%Z ∨
     (Run unreachable {| words := ["remove"; "file"]; options := [("all", BoolVal true)] |}).2
       = 1%Z).
Proof.
  exact (X8_show_remove_exit_code unreachable removeFileCmd [("all", BoolVal true)]
           (with_all true initial) ltac:(in_commands) eq_refl).
Defined.

(** The download of [/docs/notes.txt] at version 100 onto a failing disk. *)
Lemma X9_download_onto_failing_disk :
  last (run_command downloadFileCmd (failing_disk [Byte.x68; Byte.x69]) notes_at_100).1 =
    Some (EFileClose "out.txt") ∧
  (run_command downloadFileCmd (failing_disk [Byte.x68; Byte.x69]) notes_at_100).2 =
    Some (Err "input/output error").
Proof.
  destruct (X9_download_file_handling (failing_disk [Byte.x68; Byte.x69]) notes_at_100
              ltac:(discriminate) ltac:(discriminate) ltac:(discriminate)) as (_ & _ & H).
  destruct (H [Byte.x68; Byte.x69] eq_refl eq_refl eq_refl) as (Hl & He).
  exact (conj Hl (He _ _ eq_refl)).
Defined.

(** The same download onto a disk that takes the two bytes. *)
Lemma X10_download_written_in_full :
  (run_command downloadFileCmd (agreeable [Byte.x68; Byte.x69]) notes_at_100).2 = None.
Proof.
  apply (proj2 (X10_download_succeeds_only_on_full_write (agreeable [Byte.x68; Byte.x69])
                  notes_at_100 ltac:(discriminate) ltac:(discriminate) ltac:(discriminate))).
  exists [Byte.x68; Byte.x69]. by split_and!.
Defined.

(** [qis show dir --path /docs]: [path] is no flag of show dir. *)
Lemma X11_show_dir_with_path :
  Run (agreeable []) {| words := ["show"; "dir"];
                        options := [("all", BoolVal true); ("path", StringVal "/docs")] |} =
    ([], 1%Z).
Proof.
  exact (X11_unknown_option_stops_the_run (agreeable []) showDirCmd
           [("all", BoolVal true); ("path", StringVal "/docs")] "path" (StringVal "/docs")
           ltac:(right; left) eq_refl ltac:(discriminate) ltac:(discriminate)).
Defined.


End coverage_runs.

(** * The Directory Registry behind the password commands

    The sources hold the password commands of the command line only.  What
    the engine does with a password is described by the specification
    (Directory Registry, section 4.3). *)
Module registry.
Import main main_facts history.

(** Modelled from the spec: overwriting the access password of a root
    directory, every other attribute (path key, owner, member UUIDs) kept:
    the Directory Registry is absent from the sources. *)
Definition overwrite_password (pw : string) (d : RootDirectory) : RootDirectory :=
  {| dir_AfterPath := dir_AfterPath d; Owner := Owner d;
     dir_Password := pw; UUIDs := UUIDs d |}.

(** Modelled from the spec: [SetPassword(path, newPassword)] of the absent
    Directory Registry, a transactional overwrite of the stored password of
    the root registered under the path key; a path that is not registered is
    [NotFound] (section 7). *)
Definition SetPassword (p newPassword : string) (roots : gmap string RootDirectory)
    : gmap string RootDirectory + Failure :=
  match roots !! p with
  | None => inr NotFound
  | Some d => inl (<[p := overwrite_password newPassword d]> roots)
  end.

(** Modelled from the spec: [ResetPassword(path)] of the absent Directory
    Registry: reset restores a default secret, by the same overwrite. *)
Definition ResetPassword (defaultSecret p : string) (roots : gmap string RootDirectory)
    : gmap string RootDirectory + Failure :=
  SetPassword p defaultSecret roots.

(** Modelled from the spec: [JoinRoot(path, clientUUID, suppliedPassword)]
    of the absent Directory Registry: fails [Unauthorized] if the supplied
    password does not match the stored password; otherwise adds the client
    UUID to the membership set (re-joining is a no-op). *)
Definition JoinRoot (p clientUUID suppliedPassword : string) (roots : gmap string RootDirectory)
    : gmap string RootDirectory + Failure :=
  match roots !! p with
  | None => inr NotFound
  | Some d =>
      if decide (suppliedPassword = dir_Password d) then
        if decide (clientUUID ∈ UUIDs d) then inl roots
        else inl (<[p := {| dir_AfterPath := dir_AfterPath d; Owner := Owner d;
                            dir_Password := dir_Password d;
                            UUIDs := clientUUID :: UUIDs d |}]> roots)
      else inr Unauthorized
  end.

(** Modelled from the spec: the membership set of the root registered
    under a path key (empty when none is). *)
Definition members (p : string) (roots : gmap string RootDirectory) : list string :=
  match roots !! p with
  | Some d => UUIDs d
  | None => []
  end.

(** The overwrite keeps every membership set. *)
Lemma SetPassword_members (p pw q : string) (roots roots' : gmap string RootDirectory) :
  SetPassword p pw roots = inl roots' → members q roots' = members q roots.
Proof.
  unfold SetPassword, members. destruct (roots !! p) as [d|] eqn:Hd; [|done].
  intros [= <-]. destruct (decide (p = q)) as [<-|Hne].
  - by rewrite lookup_insert_eq, Hd.
  - by rewrite lookup_insert_ne.
Qed.

(** The overwrite changes the root under the path in its password only,
    and no other root. *)
Lemma SetPassword_lookup (p pw q : string) (roots roots' : gmap string RootDirectory) :
  SetPassword p pw roots = inl roots' →
  roots' !! q = if decide (p = q) then overwrite_password pw <$> roots !! q else roots !! q.
Proof.
  unfold SetPassword. destruct (roots !! p) as [d|] eqn:Hd; [|done].
  intros [= <-]. destruct (decide (p = q)) as [<-|Hne].
  - by rewrite lookup_insert_eq, Hd.
  - by rewrite lookup_insert_ne.
Qed.

(** After the overwrite, joining is decided by the new password. *)
Lemma SetPassword_then_JoinRoot (p pw uuid supplied : string)
    (roots roots' : gmap string RootDirectory) :
  SetPassword p pw roots = inl roots' →
  (supplied ≠ pw → JoinRoot p uuid supplied roots' = inr Unauthorized) ∧
  ∃ roots'', JoinRoot p uuid pw roots' = inl roots'' ∧ uuid ∈ members p roots'' ∧
             ∀ u, u ∈ members p roots → u ∈ members p roots''.
Proof.
  unfold SetPassword. destruct (roots !! p) as [d|] eqn:Hd; [|done]. intros [= <-].
  unfold JoinRoot, members. rewrite lookup_insert_eq, Hd. cbn. split.
  - intros Hne. by rewrite decide_False.
  - rewrite decide_True by done. destruct (decide (uuid ∈ UUIDs d)) as [Hin|Hnin].
    + eexists. split; [reflexivity|]. rewrite lookup_insert_eq. cbn. by split.
    + eexists. split; [reflexivity|]. rewrite lookup_insert_eq. cbn. split; [by left|].
      intros u Hu. by right.
Qed.

(** What a password operation on the root under [p] may do: under a path
    that is not registered, fail [NotFound]; otherwise leave every membership
    set and every other root as they were, change the root in its password
    only, and decide the joins that follow by the password [pw]: a join with
    another password is [Unauthorized], a join with [pw] succeeds and keeps
    the existing members. *)
Definition overwrites_password_only (p pw : string) (roots : gmap string RootDirectory)
    (result : gmap string RootDirectory + Failure) : Prop :=
  match result with
  | inr f => f = NotFound ∧ roots !! p = None
  | inl roots' =>
      (∀ q, members q roots' = members q roots) ∧
      (∀ q, q ≠ p → roots' !! q = roots !! q) ∧
      (∃ d, roots !! p = Some d ∧
            roots' !! p = Some {| dir_AfterPath := dir_AfterPath d; Owner := Owner d;
                                  dir_Password := pw; UUIDs := UUIDs d |}) ∧
      (∀ uuid supplied, supplied ≠ pw →
         JoinRoot p uuid supplied roots' = inr Unauthorized) ∧
      (∀ uuid, ∃ roots'', JoinRoot p uuid pw roots' = inl roots'' ∧
                          uuid ∈ members p roots'' ∧
                          ∀ u, u ∈ members p roots → u ∈ members p roots'')
  end.

Lemma SetPassword_overwrites_password_only (p pw : string) (roots : gmap string RootDirectory) :
  overwrites_password_only p pw roots (SetPassword p pw roots).
Proof.
  unfold overwrites_password_only.
  destruct (SetPassword p pw roots) as [roots'|f] eqn:Hset.
  - split_and!.
    + intros q. by apply (SetPassword_members p pw).
    + intros q Hq. rewrite (SetPassword_lookup p pw q roots roots' Hset).
      by rewrite decide_False.
    + pose proof (SetPassword_lookup p pw p roots roots' Hset) as Hl.
      rewrite decide_True in Hl by done.
      unfold SetPassword in Hset. destruct (roots !! p) as [d|]; [|done]. by exists d.
    + intros uuid supplied Hne.
      by apply (SetPassword_then_JoinRoot p pw uuid supplied roots roots' Hset).
    + intros uuid. by apply (SetPassword_then_JoinRoot p pw uuid pw roots roots' Hset).
  - unfold SetPassword in Hset. destruct (roots !! p); [done|]. by injection Hset as <-.
Qed.

(** C4, as amended.  The password commands do not identify a root
    directory: password set posts to [/api/v1/server/password/set] the
    marshalled record holding the new password and nothing else, password
    reset posts to [/api/v1/server/password/reset] with no body, [--pw] is
    the only flag of the two, and neither run depends on any variable but the
    password.  In the registry, setting and resetting the password of a root
    overwrite only its stored password and do not affect existing membership,
    only future joins. *)
Theorem C4_password_overwrite_names_no_root_and_keeps_membership
    (env : Env) (g : Globals) (roots : gmap string RootDirectory)
    (p newPassword defaultSecret : string) :
  password g ≠ "" →
  ((∀ body, json_Marshal env {| Password := password g |} = inl body →
      requests (run_command passwordSetCmd env g).1 =
        [EPost "/api/v1/server/password/set" "application/json" (Some body)]) ∧
   requests (run_command passwordResetCmd env g).1 =
     [EPost "/api/v1/server/password/reset" "application/json" None] ∧
   (∀ g', password g' = password g →
      run_command passwordSetCmd env g' = run_command passwordSetCmd env g) ∧
   (∀ g', run_command passwordResetCmd env g' = run_command passwordResetCmd env g) ∧
   flag_var <$> Flags passwordSetCmd = [v_password] ∧
   Flags passwordResetCmd = []) ∧
  overwrites_password_only p newPassword roots (SetPassword p newPassword roots) ∧
  overwrites_password_only p defaultSecret roots (ResetPassword defaultSecret p roots).
Proof.
  intros Hpw. split; [|split].
  - by apply password_requests_name_no_root_directory.
  - apply SetPassword_overwrites_password_only.
  - apply SetPassword_overwrites_password_only.
Qed.

(** The root [/docs], owned by alice, with the password [p1] and the
    member [c-1]. *)
Definition docs : gmap string RootDirectory :=
  {[ "/docs" := {| dir_AfterPath := "/docs"; Owner := "alice"; dir_Password := "p1";
                   UUIDs := ["c-1"] |} ]}.

(** [qis password set --pw p2], and the password of [/docs] set to [p2]:
    [c-1] is still its member, [p1] no longer lets a client in. *)
Lemma C4_docs_password_p2 :
  requests (run_command passwordResetCmd (agreeable []) (with_password "p2" initial)).1 =
    [EPost "/api/v1/server/password/reset" "application/json" None] ∧
  overwrites_password_only "/docs" "p2" docs (SetPassword "/docs" "p2" docs) ∧
  members "/docs" docs = ["c-1"].
Proof.
  destruct (C4_password_overwrite_names_no_root_and_keeps_membership (agreeable [])
              (with_password "p2" initial) docs "/docs" "p2" "changeme" ltac:(discriminate))
    as ((_ & Hreset & _) & Hset & _).
  exact (conj Hreset (conj Hset eq_refl)).
Defined.

End registry.

(** * [Run] from any state of the flag variables

    [Run] registers every flag before it executes the command line, and
    registering a flag stores its default value through the pointer the flag
    is given.  So whatever the package-level variables hold when [Run] is
    entered, the command runs in the state its own options make of the
    defaults. *)
Module process.
Import main main_facts.

(** The default value every registration of [Run] passes for the variable:
    [false] for [all], [0] for [version], the empty string for the others. *)
Definition default_value (v : Var) : FlagValue :=
  match v with
  | v_all => BoolVal false
  | v_version => Uint64Val 0
  | _ => StringVal ""
  end.

(** [Flags().StringVarP(&v, name, shorthand, value, usage)] and its
    siblings: the variable receives the default value. *)
Definition register (g : Globals) (f : Flag) : Globals :=
  default g (set_var (flag_var f) (default_value (flag_var f)) g).

(** The commands whose flags the "set flags" block of [Run] registers, in
    its order. *)
Definition flagged_commands : list Command :=
  [startServerCmd; runCmd; passwordSetCmd;
   showClientCmd; showDirCmd; showFileCmd; showHistoryCmd;
   removeClientCmd; removeDirCmd; removeFileCmd; downloadFileCmd].

(** The variables after the "set flags" block, from what they held. *)
Definition set_flags (g : Globals) : Globals :=
  foldl (λ g c, foldl register g (Flags c)) g flagged_commands.

(** [rootCmd.Execute()] with the variables holding [g] when the command
    line is parsed. *)
Definition ExecuteFrom (g : Globals) (env : Env) (inv : Invocation) : list Event * option error :=
  let '(c, args) := Find rootCmd (words inv) in
  if bool_decide (c = rootCmd ∧ args ≠ []) then ([], Some (Err "unknown command"))
  else
    match ParseFlags c (options inv) g with
    | None => ([], Some (Err "invalid flag"))
    | Some g' => run_command c env g'
    end.

(** [Run] entered with the variables holding [g0]. *)
Definition RunFrom (g0 : Globals) (env : Env) (inv : Invocation) : list Event * Z :=
  match ExecuteFrom (set_flags g0) env inv with
  | (t, Some _) => (t, 1)
  | (t, None) => (t, 0)
  end%Z.

Lemma set_flags_initial (g0 : Globals) : set_flags g0 = initial.
Proof. by destruct g0. Qed.

Lemma ExecuteFrom_initial (env : Env) (inv : Invocation) :
  ExecuteFrom initial env inv = Execute env inv.
Proof. reflexivity. Qed.

Lemma RunFrom_Run (g0 : Globals) (env : Env) (inv : Invocation) :
  RunFrom g0 env inv = Run env inv.
Proof. unfold RunFrom, Run. by rewrite set_flags_initial, ExecuteFrom_initial. Qed.

Lemma get_var_initial (v : Var) : get_var v initial = default_value v.
Proof. by destruct v. Qed.

(** C6.  Two runs of the program on the same command line behave
    identically whatever the flag variables held when each was entered: the
    registration of the flags resets every variable, the run is the one from
    the initial values, and when the command body runs every variable that is
    not bound to a flag of the command holds its default, whatever an earlier
    command line left in it.  The server commands hand their configuration
    to [app.New] as parameters. *)
Theorem C6_same_arguments_same_run
    (env : Env) (inv : Invocation) (g0 g0' : Globals) :
  RunFrom g0 env inv = RunFrom g0' env inv ∧
  RunFrom g0 env inv = Run env inv ∧
  set_flags g0 = initial ∧
  (∀ c g, ParseFlags c (options inv) (set_flags g0) = Some g →
     ∀ v, v ∉ (flag_var <$> Flags c) → get_var v g = default_value v) ∧
  (∀ c g, c = startServerCmd ∨ c = runCmd →
     head (run_command c env g).1 = Some (EAppNew (addr g) (port g) (port3 g))).
Proof.
  split_and!.
  - by rewrite !RunFrom_Run.
  - apply RunFrom_Run.
  - apply set_flags_initial.
  - intros c g Hparse v Hv. rewrite set_flags_initial in Hparse.
    by rewrite (ParseFlags_frame c (options inv) initial g v Hparse Hv), get_var_initial.
  - intros c g [->| ->]; unfold run_command; cbn;
      (destruct (app_New env _ _ _); [done|]);
      [by destruct (StartRestServer env)|by destruct (app_Run env)].
Qed.

(** [qis show dir --all], entered with the variables as a download of
    [/docs/a] at version 7 into [out.txt] left them, and entered afresh. *)
Lemma C6_show_dir_after_a_download :
  let left_behind := {| all := false; id := ""; path := "/docs/a"; version := 7;
                        target := "out.txt"; addr := ""; port := ""; port3 := "";
                        password := "" |} in
  let inv := {| words := ["show"; "dir"]; options := [("all", BoolVal true)] |} in
  RunFrom left_behind (agreeable []) inv = RunFrom initial (agreeable []) inv ∧
  requests (RunFrom left_behind (agreeable []) inv).1 =
    [EGet "/api/v1/server/logs/directories?afterPath="].
Proof.
  destruct (C6_same_arguments_same_run (agreeable [])
    {| words := ["show"; "dir"]; options := [("all", BoolVal true)] |}
    {| all := false; id := ""; path := "/docs/a"; version := 7;
       target := "out.txt"; addr := ""; port := ""; port3 := ""; password := "" |}
    initial) as (Hsame & Hrun & _).
  split; [exact Hsame|]. rewrite Hrun. reflexivity.
Defined.

End process.
